(** * Login Monitor PRO (Windows edition): the command listener

    A shallow embedding of [scripts/command_listener.py] and proofs about
    its dispatcher ([process_command]), its background tasks and their
    cancellation slots ([running_commands]), the start-up sweep
    ([process_pending_commands]) and the choice of transport ([listen]).

    Python code becomes functions in a state-and-exception monad [M] over a
    [State] that holds the fields of the [CommandListener] object, the log,
    the remote [commands] table and the trace of calls made to external
    collaborators (Supabase, OpenCV, sounddevice, winsound, the clock). *)

From Stdlib Require Import ZArith QArith String List Bool Lia.
From stdpp Require Import base option list strings gmap fin_maps pretty.
Import ListNotations.

Local Open Scope string_scope.
Local Open Scope Z_scope.

(** ** Python values

    The values that travel through the listener are JSON-like: command
    records, arguments and results.  Dictionaries keep their insertion
    order, as Python's do; their keys are strings. *)

(** The floats that are not rationals. *)
Inductive nonfinite : Type := PosInf | NegInf | NaN.

#[local] Unset Elimination Schemes.
Inductive pyval : Type :=
| PNone
| PBool (b : bool)
| PInt (z : Z)
| PFloat (q : Q)              (* a finite float *)
| PNonFinite (k : nonfinite)  (* a float that is not finite *)
| PStr (s : string)
| PList (l : list pyval)
| PDict (d : list (string * pyval)).
#[local] Set Elimination Schemes.

Definition dict : Type := list (string * pyval).

(** [d.get(k)], on the association list of a dictionary. *)
Fixpoint dict_get (d : dict) (k : string) : option pyval :=
  match d with
  | [] => None
  | (k', v) :: d' => if String.eqb k k' then Some v else dict_get d' k
  end.

(** Truth value of an object, as [if x:] and [not x] take it. *)
Definition truthy (v : pyval) : bool :=
  match v with
  | PNone => false
  | PBool b => b
  | PInt z => negb (z =? 0)
  | PFloat q => negb (Qeq_bool q 0)
  | PNonFinite _ => true
  | PStr s => negb (String.eqb s "")
  | PList l => match l with [] => false | _ => true end
  | PDict d => match d with [] => false | _ => true end
  end.

(** [type(v).__name__], used in the text of AttributeError and TypeError. *)
Definition type_name (v : pyval) : string :=
  match v with
  | PNone => "NoneType"
  | PBool _ => "bool"
  | PInt _ => "int"
  | PFloat _ | PNonFinite _ => "float"
  | PStr _ => "str"
  | PList _ => "list"
  | PDict _ => "dict"
  end.

(** ** Exceptions and the monad *)

(** [Exception msg] stands for any instance of a subclass of [Exception]
    whose [str()] is [msg]; [KeyboardInterrupt] derives from
    [BaseException] only, so [except Exception] does not catch it. *)
Inductive exn : Type :=
| Exception (msg : string)
| KeyboardInterrupt.

Inductive outcome (A : Type) : Type :=
| Ok (a : A)
| Raise (e : exn).
Arguments Ok {A} a.
Arguments Raise {A} e.

(** A call to an external collaborator: the name of the callee as the
    source writes it, and its arguments. *)
Record Call : Type := mkCall { callee : string; call_args : list pyval }.

Inductive level : Type := INFO | WARNING | ERROR.

(** A log record: the level, the text of the f-string with [{}] for each
    interpolated expression, and the values interpolated. *)
Record LogRecord : Type :=
  mkLog { log_level : level; log_fmt : string; log_args : list pyval }.

(** A row of the remote [commands] table. *)
Record Row : Type := mkRow {
  row_id : string;
  row_device_id : string;
  row_command : pyval;
  row_args : pyval;
  row_status : string;
  row_created_at : pyval;
  row_completed_at : pyval;
  row_result : pyval;
}.

(** The kinds of background task, keyed in [running_commands] by name. *)
Inductive kind : Type := Alarm | Findme.

Definition slot (k : kind) : string :=
  match k with Alarm => "alarm" | Findme => "findme" end.

(** Where a background thread stands in its loop. *)
Inductive pc : Type :=
| AtStart        (* before [start = time.time()] *)
| AtTest         (* at the [while] condition *)
| AtCheck        (* at [if not self.running_commands.get(...)] *)
| AtBody         (* beep, sleep, and for findme the location report *)
| AtExit         (* at the assignment that follows the loop *)
| Done           (* the thread function has returned *)
| Crashed.       (* the thread died on an exception *)

Record task : Type := mkTask {
  task_kind : kind;
  task_duration : Z;
  task_start : Q;
  task_pc : pc;
}.

(** The mutable world: the fields of the listener object, its log, the
    threads it has started, the remote table and the trace of external
    calls (oldest first). *)
Record State : Type := mkState {
  device_id : option string;
  running : bool;
  running_commands : gmap string bool;
  threads : list task;
  log : list LogRecord;
  trace : list Call;
  commands_table : list Row;
}.

Definition set_running (b : bool) (st : State) : State :=
  mkState (device_id st) b (running_commands st) (threads st) (log st)
          (trace st) (commands_table st).
Definition set_running_commands (rc : gmap string bool) (st : State) : State :=
  mkState (device_id st) (running st) rc (threads st) (log st)
          (trace st) (commands_table st).
Definition set_threads (ts : list task) (st : State) : State :=
  mkState (device_id st) (running st) (running_commands st) ts (log st)
          (trace st) (commands_table st).
Definition set_log (l : list LogRecord) (st : State) : State :=
  mkState (device_id st) (running st) (running_commands st) (threads st) l
          (trace st) (commands_table st).
Definition set_trace (t : list Call) (st : State) : State :=
  mkState (device_id st) (running st) (running_commands st) (threads st)
          (log st) t (commands_table st).
Definition set_commands_table (t : list Row) (st : State) : State :=
  mkState (device_id st) (running st) (running_commands st) (threads st)
          (log st) (trace st) t.

Definition M (A : Type) : Type := State -> outcome A * State.

Definition ret {A} (a : A) : M A := fun st => (Ok a, st).

Definition bind {A B} (m : M A) (k : A -> M B) : M B :=
  fun st =>
    match m st with
    | (Ok a, st') => k a st'
    | (Raise e, st') => (Raise e, st')
    end.

Definition raise {A} (e : exn) : M A := fun st => (Raise e, st).

(** [try: body / except Exception as e: handler(str(e))]. *)
Definition try_except {A} (body : M A) (handler : string -> M A) : M A :=
  fun st =>
    match body st with
    | (Raise (Exception msg), st') => handler msg st'
    | r => r
    end.

(** [try: body / except: handler], which catches everything. *)
Definition try_bare {A} (body : M A) (handler : M A) : M A :=
  fun st =>
    match body st with
    | (Raise _, st') => handler st'
    | r => r
    end.

Definition gets {A} (f : State -> A) : M A := fun st => (Ok (f st), st).
Definition modify (f : State -> State) : M unit := fun st => (Ok tt, f st).

Declare Scope py_scope.
Delimit Scope py_scope with py.
Notation "'let*' x ':=' m 'in' k" := (bind m (fun x => k))
  (at level 10, x name, m at level 100, k at level 200) : py_scope.
Notation "m ';;' k" := (bind m (fun _ => k))
  (at level 100, k at level 200, right associativity) : py_scope.
Local Open Scope py_scope.

(** [for x in xs: body x]. *)
Fixpoint for_each {A} (xs : list A) (body : A -> M unit) : M unit :=
  match xs with
  | [] => ret tt
  | x :: xs' => body x ;; for_each xs' body
  end.

(** ** The environment

    What the program cannot decide on its own: the answers of external
    collaborators, as a function of the calls made so far, and the builtins
    whose result depends on the text of a string: a [str] is kept as the
    bytes of its encoding, and what [str.lower()], [int()] and [json] make
    of them is Python's to say. *)
Record Env : Type := mkEnv {
  (** the value an external call returns, or the message of the
      [Exception] it raises *)
  answer : list Call -> Call -> pyval + string;
  (** [json.loads]: [None] when it raises *)
  json_loads : string -> option pyval;
  (** [json.dumps] of a result *)
  json_dumps : pyval -> string;
  (** [s.lower()], which follows the Unicode case mapping *)
  str_lower : string -> string;
  (** [int(s)] for a string: [None] when it raises ValueError *)
  int_of_str : string -> option Z;
  (** [str(e)] of the exception [e] that [int(v)] raises on a [v] it does
      not convert *)
  int_error : pyval -> string;
  (** [datetime.utcnow().isoformat()], which does not fail *)
  utcnow : list Call -> string;
  (** whether the user interrupts the main thread while it sleeps *)
  interrupted : list Call -> bool;
  (** the module constant set by the imports at the top of the file *)
  REALTIME_AVAILABLE : bool;
}.

(** A command handler: [(args) -> result]. *)
Abbreviation Handler := (pyval -> M pyval).

Section Listener.

Variable env : Env.

(** *** Primitive effects *)

(** A call to an external collaborator.  The call is recorded whether it
    returns or raises. *)
Definition ext (f : string) (args : list pyval) : M pyval :=
  fun st =>
    let c := mkCall f args in
    let st' := set_trace (trace st ++ [c]) st in
    match answer env (trace st) c with
    | inl v => (Ok v, st')
    | inr msg => (Raise (Exception msg), st')
    end.

Definition logger (lv : level) (fmt : string) (args : list pyval) : M unit :=
  modify (fun st => set_log (log st ++ [mkLog lv fmt args]) st).

(** [datetime.utcnow().isoformat()] *)
Definition utcnow_isoformat : M pyval :=
  let* tr := gets trace in
  ret (PStr (utcnow env tr)).

Definition logger_info := logger INFO.
Definition logger_warning := logger WARNING.
Definition logger_error := logger ERROR.

(** *** Python builtins *)

(** [str(v)], as an f-string interpolates it.  The text of floats and of
    containers is left to the environment. *)
Definition py_str (v : pyval) : string :=
  match v with
  | PStr s => s
  | PInt z => pretty z
  | PBool true => "True"
  | PBool false => "False"
  | PNone => "None"
  | _ => json_dumps env v
  end.

(** [d[k]] on a dictionary: KeyError when the key is missing. *)
Definition getitem (d : dict) (k : string) : M pyval :=
  match dict_get d k with
  | Some v => ret v
  | None => raise (Exception ("'" ++ k ++ "'"))
  end.

Definition attribute_error {A} (v : pyval) (attr : string) : M A :=
  raise (Exception ("'" ++ type_name v ++ "' object has no attribute '"
                        ++ attr ++ "'")).

(** [v.lower()]: only strings have the method. *)
Definition py_lower (v : pyval) : M string :=
  match v with
  | PStr s => ret (str_lower env s)
  | _ => attribute_error v "lower"
  end.

(** [v.get(k, dflt)]: only dictionaries have the method. *)
Definition py_get (v : pyval) (k : string) (dflt : pyval) : M pyval :=
  match v with
  | PDict d => ret (default dflt (dict_get d k))
  | _ => attribute_error v "get"
  end.

(** [int(v)]: a bool or an int is itself, a finite float is truncated
    towards zero, a string is parsed.  An infinity raises OverflowError, a
    NaN and a string that is not a numeral ValueError, any other object
    TypeError: all three derive from [Exception], and the text of each is
    the interpreter's. *)
Definition py_int (v : pyval) : M Z :=
  match v with
  | PBool b => ret (if b then 1 else 0)
  | PInt z => ret z
  | PFloat q => ret (Z.quot (Qnum q) (Z.pos (Qden q)))
  | PStr s =>
      match int_of_str env s with
      | Some z => ret z
      | None => raise (Exception (int_error env v))
      end
  | PNonFinite _ | PNone | PList _ | PDict _ =>
      raise (Exception (int_error env v))
  end.

Definition isinstance_str (v : pyval) : bool :=
  match v with PStr _ => true | _ => false end.

(** The result every handler returns from its [except] clause. *)
Definition failure (e : string) : pyval :=
  PDict [("success", PBool false); ("error", PStr e)].

(** *** The remote [commands] table *)

(** [.eq('id', command_id)]: the rows a completion is written to. *)
Definition id_matches (command_id : pyval) (r : Row) : bool :=
  match command_id with
  | PStr s => String.eqb s (row_id r)
  | _ => false
  end.

(** The update of one row by a completion write. *)
Definition complete_row (result completed_at : pyval) (r : Row) : Row :=
  mkRow (row_id r) (row_device_id r) (row_command r) (row_args r)
        "completed" (row_created_at r) completed_at result.

Definition apply_completion (command_id result completed_at : pyval)
    (t : list Row) : list Row :=
  map (fun r => if id_matches command_id r
                then complete_row result completed_at r else r) t.

(** A row as the client library hands it to the program. *)
Definition record_of_row (r : Row) : dict :=
  [("id", PStr (row_id r)); ("device_id", PStr (row_device_id r));
   ("command", row_command r); ("args", row_args r);
   ("status", PStr (row_status r)); ("created_at", row_created_at r);
   ("completed_at", row_completed_at r); ("result", row_result r)].

Definition device_arg (d : option string) : pyval :=
  match d with Some s => PStr s | None => PNone end.

(** [.eq('device_id', self.device_id).eq('status', 'pending')]. *)
Definition is_pending_for (d : option string) (r : Row) : bool :=
  match d with
  | Some s => String.eqb s (row_device_id r) && String.eqb "pending" (row_status r)
  | None => false
  end.

(** [supabase.table('commands').select('*').eq(...).eq(...).execute().data] *)
Definition select_pending : M (list dict) :=
  let* d := gets device_id in
  ext "commands.select.execute" [device_arg d; PStr "pending"] ;;
  let* t := gets commands_table in
  ret (map record_of_row (filter (fun r => is_pending_for d r = true) t)).

(** *** update_command_result *)

(** The fields a completion write sets. *)
Definition completion_payload (serialized now : pyval) : pyval :=
  PDict [("status", PStr "completed"); ("result", serialized);
         ("completed_at", now)].

Definition update_command_result (command_id : pyval) (result : pyval) : M unit :=
  try_except
    (let serialized := PStr (json_dumps env result) in
     let* now := utcnow_isoformat in
     ext "commands.update.execute"
         [completion_payload serialized now; command_id] ;;
     modify (fun st => set_commands_table
               (apply_completion command_id serialized now (commands_table st)) st))
    (fun e => logger_error "Failed to update command result: {}" [PStr e]).

(** *** process_command *)

Definition unknown_command (cmd_name : string) : pyval :=
  PDict [("success", PBool false);
         ("error", PStr ("Unknown command: " ++ cmd_name))].

Definition process_command_body (handlers : gmap string Handler)
    (command : dict) : M unit :=
  let* cmd_id := getitem command "id" in
  let* name := getitem command "command" in
  let* cmd_name := py_lower name in
  let cmd_args := default (PDict []) (dict_get command "args") in
  let* cmd_args :=
    (if isinstance_str cmd_args
     then try_bare
            (match cmd_args with
             | PStr s =>
                 match json_loads env s with
                 | Some v => ret v
                 | None => raise (Exception "Expecting value")
                 end
             | _ => ret cmd_args
             end)
            (ret (PDict []))
     else ret cmd_args) in
  logger_info "Processing command: {}" [PStr cmd_name] ;;
  let* result :=
    match handlers !! cmd_name with
    | Some handler => handler cmd_args
    | None => ret (unknown_command cmd_name)
    end in
  update_command_result cmd_id result ;;
  let* success := py_get result "success" PNone in
  logger_info "Command {} completed: {}" [PStr cmd_name; success].

Definition process_command (handlers : gmap string Handler)
    (command : dict) : M unit :=
  try_except (process_command_body handlers command)
    (fun e => logger_error "Error processing command: {}" [PStr e]).

(** *** Helper methods *)

(** [upload_file]: the public URL of the uploaded file, or [None] after
    logging the failure. *)
Definition upload_file (dir filename bucket : string) : M pyval :=
  try_except
    (let* data := ext "open.read" [PStr dir; PStr filename] in
     let* d := gets device_id in
     let path := PStr (py_str (device_arg d) ++ "/" ++ filename) in
     ext "storage.upload" [PStr bucket; path; data] ;;
     ext "storage.get_public_url" [PStr bucket; path])
    (fun e => logger_error "Upload failed: {}" [PStr e] ;; ret PNone).

Definition update_device_location (location : pyval) : M unit :=
  try_except
    (let* lat := py_get location "latitude" PNone in
     let* lon := py_get location "longitude" PNone in
     let* city := py_get location "city" PNone in
     let* d := gets device_id in
     ext "devices.update.execute"
         [PDict [("last_location_lat", lat); ("last_location_lon", lon);
                 ("last_location_city", city)];
          device_arg d] ;;
     ret tt)
    (fun e => logger_error "Failed to update location: {}" [PStr e]).

(** [datetime.now().strftime('%Y%m%d_%H%M%S')] *)
Definition timestamp : M string :=
  let* t := ext "datetime.now.strftime" [PStr "%Y%m%d_%H%M%S"] in
  ret (py_str t).

(** [v.attr] on an object the collaborators return; such objects are
    represented by the dictionary of their attributes. *)
Definition getattr (v : pyval) (attr : string) : M pyval :=
  match v with
  | PDict d =>
      match dict_get d attr with
      | Some x => ret x
      | None => attribute_error v attr
      end
  | _ => attribute_error v attr
  end.

(** [len(v)] *)
Definition py_len (v : pyval) : M Z :=
  match v with
  | PStr s => ret (Z.of_nat (String.length s))
  | PList l => ret (Z.of_nat (length l))
  | PDict d => ret (Z.of_nat (length d))
  | _ => raise (Exception ("object of type '" ++ type_name v ++ "' has no len()"))
  end.

(** [v == s] for a string literal [s]. *)
Definition eq_str (v : pyval) (s : string) : bool :=
  match v with PStr s' => String.eqb s' s | _ => false end.

(** [range(n)] *)
Definition range (n : Z) : list Z := map Z.of_nat (seq 0 (Z.to_nat n)).

(** *** Background threads *)

(** [threading.Thread(target=...).start()] for a task loop. *)
Definition start_task (k : kind) (duration : Z) : M unit :=
  ext "threading.Thread.start" [PStr (slot k)] ;;
  modify (fun st => set_threads (threads st ++ [mkTask k duration 0%Q AtStart]) st).

(** ** Command handlers

    Each handler is modelled call by call.  Where the source post-processes
    a reading of the operating system (the uptime and the sizes of
    [cmd_status], the parsing of the output of [netsh], the filtering and
    sorting of the process list), that post-processing is left with the
    collaborator: its answer stands for the value the handler puts in its
    result. *)

Definition cmd_status (args : pyval) : M pyval :=
  try_except
    (let* hostname := ext "socket.gethostname" [] in
     let* username := ext "os.environ.get" [PStr "USERNAME"; PStr "Unknown"] in
     let* uptime_str := ext "psutil.boot_time" [] in
     let* mem := ext "psutil.virtual_memory" [] in
     let* disk := ext "psutil.disk_usage" [PStr "C:\"] in
     let* os_version :=
       try_bare (ext "platform.platform" []) (ret (PStr "Windows")) in
     let* mem_total := getattr mem "total" in
     let* mem_used := getattr mem "used" in
     let* mem_percent := getattr mem "percent" in
     let* disk_total := getattr disk "total" in
     let* disk_used := getattr disk "used" in
     let* disk_percent := getattr disk "percent" in
     let* cpu := ext "psutil.cpu_percent" [] in
     ret (PDict [("success", PBool true); ("hostname", hostname);
                 ("username", username); ("os", PStr "Windows");
                 ("os_version", os_version); ("uptime", uptime_str);
                 ("memory_total", mem_total); ("memory_used", mem_used);
                 ("memory_percent", mem_percent);
                 ("disk_total", disk_total); ("disk_used", disk_used);
                 ("disk_percent", disk_percent); ("cpu_percent", cpu)]))
    (fun e => ret (failure e)).

Definition cmd_screenshot (args : pyval) : M pyval :=
  try_except
    (let* ts := timestamp in
     let filename := "screenshot_" ++ ts ++ ".png" in
     let* screenshot := ext "ImageGrab.grab" [] in
     ext "screenshot.save" [PStr "CAPTURE_DIR"; PStr filename; PStr "PNG"] ;;
     let* url := upload_file "CAPTURE_DIR" filename "screenshots" in
     ret (PDict [("success", PBool true);
                 ("message", PStr "Screenshot captured");
                 ("filename", PStr filename); ("url", url)]))
    (fun e => ret (failure e)).

(** [count = min(int(args.get('count', 1)), 5)] *)
Definition photo_count (args : pyval) : M Z :=
  let* c := py_get args "count" (PInt 1) in
  let* n := py_int c in
  ret (Z.min n 5).

(** The body of [for i in range(count)], with [photos] threaded through. *)
Definition capture_frame (i : Z) (photos : list pyval) : M (list pyval) :=
  let* r := ext "cap.read" [] in
  let* photos :=
    match r with
    | PList [ok; frame] =>
        if truthy ok then
          let* ts := timestamp in
          let filename := "photo_" ++ ts ++ "_" ++ pretty (i + 1) ++ ".jpg" in
          ext "cv2.imwrite" [PStr "CAPTURE_DIR"; PStr filename; frame] ;;
          let* url := upload_file "CAPTURE_DIR" filename "photos" in
          ret (photos ++ [PDict [("filename", PStr filename); ("url", url)]])%list
        else ret photos
    | _ => raise (Exception "cannot unpack non-iterable object")
    end in
  ext "time.sleep" [PFloat (3 # 10)] ;;
  ret photos.

Fixpoint capture_frames (indices : list Z) (photos : list pyval)
    : M (list pyval) :=
  match indices with
  | [] => ret photos
  | i :: rest =>
      let* photos := capture_frame i photos in
      capture_frames rest photos
  end.

Definition cmd_photo (args : pyval) : M pyval :=
  try_except
    (let* count := photo_count args in
     let* cap := ext "cv2.VideoCapture" [PInt 0] in
     let* opened := ext "cap.isOpened" [] in
     if negb (truthy opened) then
       ret (PDict [("success", PBool false); ("error", PStr "No webcam found")])
     else
       ext "time.sleep" [PFloat (5 # 10)] ;;
       let* photos := capture_frames (range count) [] in
       ext "cap.release" [] ;;
       ret (PDict [("success", PBool true);
                   ("message", PStr ("Captured " ++ pretty (Z.of_nat (length photos))
                                       ++ " photo(s)"));
                   ("photos", PList photos)]))
    (fun e => ret (failure e)).

Definition cmd_location (args : pyval) : M pyval :=
  try_except
    (let* response := ext "requests.get" [PStr "http://ip-api.com/json/"; PInt 10] in
     let* data := ext "response.json" [] in
     let* status := py_get data "status" PNone in
     if eq_str status "success" then
       let* lat := py_get data "lat" PNone in
       let* lon := py_get data "lon" PNone in
       let* city := py_get data "city" PNone in
       let* region := py_get data "regionName" PNone in
       let* country := py_get data "country" PNone in
       let* isp := py_get data "isp" PNone in
       let* ip := py_get data "query" PNone in
       ret (PDict [("success", PBool true); ("latitude", lat);
                   ("longitude", lon); ("city", city); ("region", region);
                   ("country", country); ("isp", isp); ("ip", ip);
                   ("source", PStr "IP Geolocation")])
     else
       ret (PDict [("success", PBool false);
                   ("error", PStr "Could not determine location")]))
    (fun e => ret (failure e)).

Definition cmd_battery (args : pyval) : M pyval :=
  try_except
    (let* battery := ext "psutil.sensors_battery" [] in
     if truthy battery then
       let* percent := getattr battery "percent" in
       let* plugged := getattr battery "power_plugged" in
       let* secsleft := getattr battery "secsleft" in
       let* secs := py_int secsleft in
       ret (PDict [("success", PBool true); ("percent", percent);
                   ("plugged", plugged);
                   ("status", PStr (if truthy plugged then "Charging"
                                    else "Discharging"));
                   ("time_left",
                    PStr (if 0 <? secs then pretty (secs / 60) ++ " minutes"
                          else "N/A"))])
     else
       ret (PDict [("success", PBool true); ("percent", PInt 100);
                   ("plugged", PBool true);
                   ("status", PStr "Desktop (No Battery)")]))
    (fun e => ret (failure e)).

Definition cmd_wifiinfo (args : pyval) : M pyval :=
  try_except
    (let* info := ext "subprocess.run"
                      [PList [PStr "netsh"; PStr "wlan"; PStr "show";
                              PStr "interfaces"]] in
     let* ssid := py_get info "SSID" (PStr "Not connected") in
     let* bssid := py_get info "BSSID" (PStr "N/A") in
     let* signal := py_get info "Signal" (PStr "N/A") in
     let* radio := py_get info "Radio type" (PStr "N/A") in
     let* auth := py_get info "Authentication" (PStr "N/A") in
     let* channel := py_get info "Channel" (PStr "N/A") in
     ret (PDict [("success", PBool true); ("ssid", ssid); ("bssid", bssid);
                 ("signal", signal); ("radio_type", radio);
                 ("authentication", auth); ("channel", channel)]))
    (fun e => ret (failure e)).

Definition cmd_sysinfo (args : pyval) : M pyval :=
  try_except
    (let* info := cmd_status (PDict []) in
     let* details := ext "wmi_client.details" [] in
     match info, details with
     | PDict i, PDict d => ret (PDict (i ++ d)%list)
     | _, _ => ret info
     end)
    (fun e => ret (failure e)).

Definition cmd_audio (args : pyval) : M pyval :=
  try_except
    (let* d := py_get args "duration" (PInt 10) in
     let* n := py_int d in
     let duration := Z.min n 120 in
     let sample_rate := 44100 in
     let* ts := timestamp in
     let filename := "audio_" ++ ts ++ ".wav" in
     logger_info "Recording audio for {} seconds..." [PInt duration] ;;
     let* recording := ext "sd.rec" [PInt (duration * sample_rate);
                                     PInt sample_rate; PInt 1; PStr "int16"] in
     ext "sd.wait" [] ;;
     ext "wav_write" [PStr "AUDIO_DIR"; PStr filename; PInt sample_rate; recording] ;;
     let* url := upload_file "AUDIO_DIR" filename "audio" in
     ret (PDict [("success", PBool true);
                 ("message", PStr ("Recorded " ++ pretty duration
                                     ++ " seconds of audio"));
                 ("filename", PStr filename); ("url", url)]))
    (fun e => ret (failure e)).

Definition cmd_alarm (args : pyval) : M pyval :=
  try_except
    (let* d := py_get args "duration" (PInt 10) in
     let* n := py_int d in
     let duration := Z.min n 60 in
     modify (fun st => set_running_commands
               (<["alarm" := true]> (running_commands st)) st) ;;
     start_task Alarm duration ;;
     ret (PDict [("success", PBool true);
                 ("message", PStr ("Playing alarm for " ++ pretty duration
                                     ++ " seconds"))]))
    (fun e => ret (failure e)).

Definition cmd_findme (args : pyval) : M pyval :=
  try_except
    (let* d := py_get args "duration" (PInt 60) in
     let* n := py_int d in
     let duration := Z.min n 300 in
     modify (fun st => set_running_commands
               (<["findme" := true]> (running_commands st)) st) ;;
     start_task Findme duration ;;
     let* location := cmd_location (PDict []) in
     ret (PDict [("success", PBool true);
                 ("message", PStr ("Find Me active for " ++ pretty duration
                                     ++ " seconds"));
                 ("location", location)]))
    (fun e => ret (failure e)).

Definition cmd_stopfind (args : pyval) : M pyval :=
  modify (fun st => set_running_commands
            (<["findme" := false]> (running_commands st)) st) ;;
  ret (PDict [("success", PBool true); ("message", PStr "Find Me stopped")]).

(** [self.running_commands.get(k)], taken as a truth value. *)
Definition slot_active (rc : gmap string bool) (k : string) : bool :=
  default false (rc !! k).

(** [if self.running_commands.get(k): self.running_commands[k] = False;
    stopped.append(k)] *)
Definition stop_slot (k : string) (stopped : list string) : M (list string) :=
  let* rc := gets running_commands in
  if slot_active rc k then
    modify (fun st => set_running_commands
              (<[k := false]> (running_commands st)) st) ;;
    ret (stopped ++ [k])%list
  else ret stopped.

Definition cmd_stop (args : pyval) : M pyval :=
  try_except
    (let stopped := [] in
     let* stopped := stop_slot "alarm" stopped in
     let* stopped := stop_slot "findme" stopped in
     let* stopped :=
       try_bare (ext "sd.stop" [] ;; ret (stopped ++ ["audio"])%list)
                (ret stopped) in
     let message :=
       match stopped with
       | [] => "No active commands to stop"
       | _ => "Stopped: " ++ String.concat ", " stopped
       end in
     ret (PDict [("success", PBool true);
                 ("stopped", PList (map PStr stopped));
                 ("message", PStr message)]))
    (fun e => ret (failure e)).

Definition cmd_listnetworks (args : pyval) : M pyval :=
  try_except
    (let* networks := ext "subprocess.run"
                          [PList [PStr "netsh"; PStr "wlan"; PStr "show";
                                  PStr "profiles"]] in
     let* count := py_len networks in
     ret (PDict [("success", PBool true); ("networks", networks);
                 ("count", PInt count)]))
    (fun e => ret (failure e)).

Definition cmd_appusage (args : pyval) : M pyval :=
  try_except
    (let* apps := ext "psutil.process_iter"
                      [PList [PStr "pid"; PStr "name"; PStr "memory_percent";
                              PStr "cpu_percent"]] in
     match apps with
     | PList l =>
         ret (PDict [("success", PBool true); ("apps", PList (take 20 l));
                     ("total", PInt (Z.of_nat (length l)))])
     | _ => raise (Exception ("'" ++ type_name apps
                                ++ "' object is not subscriptable"))
     end)
    (fun e => ret (failure e)).

Definition cmd_processes (args : pyval) : M pyval := cmd_appusage args.

Definition cmd_lockscreen (args : pyval) : M pyval :=
  try_except
    (ext "ctypes.windll.user32.LockWorkStation" [] ;;
     ret (PDict [("success", PBool true);
                 ("message", PStr "Workstation locked")]))
    (fun e => ret (failure e)).

Definition cmd_shutdown (args : pyval) : M pyval :=
  try_except
    (let* d := py_get args "delay" (PInt 60) in
     let* delay := py_int d in
     ext "subprocess.run" [PList [PStr "shutdown"; PStr "/s"; PStr "/t";
                                  PStr (pretty delay)]] ;;
     ret (PDict [("success", PBool true);
                 ("message", PStr ("Shutdown scheduled in " ++ pretty delay
                                     ++ " seconds"))]))
    (fun e => ret (failure e)).

Definition cmd_restart (args : pyval) : M pyval :=
  try_except
    (let* d := py_get args "delay" (PInt 60) in
     let* delay := py_int d in
     ext "subprocess.run" [PList [PStr "shutdown"; PStr "/r"; PStr "/t";
                                  PStr (pretty delay)]] ;;
     ret (PDict [("success", PBool true);
                 ("message", PStr ("Restart scheduled in " ++ pretty delay
                                     ++ " seconds"))]))
    (fun e => ret (failure e)).

(** [self.handlers] *)
Definition handler_table : list (string * Handler) :=
  [("status", cmd_status); ("screenshot", cmd_screenshot);
   ("photo", cmd_photo); ("location", cmd_location);
   ("battery", cmd_battery); ("wifiinfo", cmd_wifiinfo);
   ("sysinfo", cmd_sysinfo); ("audio", cmd_audio); ("alarm", cmd_alarm);
   ("findme", cmd_findme); ("stopfind", cmd_stopfind); ("stop", cmd_stop);
   ("listnetworks", cmd_listnetworks); ("appusage", cmd_appusage);
   ("processes", cmd_processes); ("lockscreen", cmd_lockscreen);
   ("shutdown", cmd_shutdown); ("restart", cmd_restart)].

Definition handlers : gmap string Handler := list_to_map handler_table.

(** ** The loops of the background threads

    [play_alarm] and [find_loop] run on threads of their own.  A thread is
    a [task]; [task_step] runs it from one point of its loop to the next,
    so that the steps of several threads and of the dispatcher can be
    interleaved. *)

(** [time.time()] *)
Definition time_time : M Q :=
  let* t := ext "time.time" [] in
  match t with
  | PFloat q => ret q
  | PInt z => ret (inject_Z z)
  | _ => raise (Exception ("unsupported operand type(s) for -: '"
                             ++ type_name t ++ "' and 'float'"))
  end.

Definition with_pc (p : pc) (t : task) : task :=
  mkTask (task_kind t) (task_duration t) (task_start t) p.

(** [a < b] on floats *)
Definition Qltb (a b : Q) : bool := negb (Qle_bool b a).

(** [int(q)] for a finite float: truncation towards zero *)
Definition Qtrunc (q : Q) : Z := Z.quot (Qnum q) (Z.pos (Qden q)).

Definition task_step (t : task) : M task :=
  match task_pc t with
  | AtStart =>
      ext "import" [PStr "winsound"] ;;
      let* start := time_time in
      ret (mkTask (task_kind t) (task_duration t) start AtTest)
  | AtTest =>
      let* now := time_time in
      if Qltb (now - task_start t) (inject_Z (task_duration t))
      then ret (with_pc AtCheck t)
      else ret (with_pc AtExit t)
  | AtCheck =>
      let* rc := gets running_commands in
      if negb (slot_active rc (slot (task_kind t)))
      then ret (with_pc AtExit t)
      else ret (with_pc AtBody t)
  | AtBody =>
      match task_kind t with
      | Alarm =>
          ext "winsound.Beep" [PInt 1000; PInt 500] ;;
          ext "time.sleep" [PFloat (1 # 10)] ;;
          ret (with_pc AtTest t)
      | Findme =>
          ext "winsound.Beep" [PInt 2000; PInt 200] ;;
          ext "time.sleep" [PInt 1] ;;
          let* now := time_time in
          (if Qtrunc (now - task_start t) mod 10 =? 0 then
             let* loc := cmd_location (PDict []) in
             let* ok := py_get loc "success" PNone in
             if truthy ok then update_device_location loc else ret tt
           else ret tt) ;;
          ret (with_pc AtTest t)
      end
  | AtExit =>
      modify (fun st => set_running_commands
                (<[slot (task_kind t) := false]> (running_commands st)) st) ;;
      ret (with_pc Done t)
  | Done => ret t
  | Crashed => ret t
  end.

(** One step of the [i]-th thread.  An exception that escapes the thread
    function ends that thread and no other. *)
Definition run_thread (i : nat) : M unit :=
  fun st =>
    match threads st !! i with
    | None => (Ok tt, st)
    | Some t =>
        match task_step t st with
        | (Ok t', st') => (Ok tt, set_threads (<[i := t']> (threads st')) st')
        | (Raise _, st') =>
            (Ok tt, set_threads (<[i := with_pc Crashed t]> (threads st')) st')
        end
    end.

(** ** Transports *)

Definition SUPABASE_URL : string := "https://lrtgcyqngspjstgxhdub.supabase.co".

(** The anonymous key of [config.py]; its text plays no part here. *)
Definition SUPABASE_ANON_KEY : string := "<anon key>".

(** [record.get('device_id') == self.device_id] *)
Definition eq_device (v : pyval) (d : option string) : bool :=
  match v, d with
  | PNone, None => true
  | PStr s, Some s' => String.eqb s s'
  | _, _ => false
  end.

Definition on_command_received (hs : gmap string Handler) (payload : pyval)
    : M unit :=
  try_except
    (let* ev := py_get payload "eventType" PNone in
     logger_info "Realtime event: {}" [ev] ;;
     let* ev := py_get payload "eventType" PNone in
     if eq_str ev "INSERT" then
       let* record := py_get payload "new" (PDict []) in
       let* dev := py_get record "device_id" PNone in
       let* d := gets device_id in
       if eq_device dev d then
         let* status := py_get record "status" PNone in
         if eq_str status "pending" then
           let* name := py_get record "command" PNone in
           logger_info "New command received: {}" [name] ;;
           match record with
           | PDict r => process_command hs r
           | _ => attribute_error record "get"
           end
         else ret tt
       else ret tt
     else ret tt)
    (fun e => logger_error "Error handling realtime event: {}" [PStr e]).

(** The device heartbeat: [last_seen] and [is_online]. *)
Definition update_heartbeat : M unit :=
  let* now := utcnow_isoformat in
  let* d := gets device_id in
  ext "devices.update.execute"
      [PDict [("last_seen", now); ("is_online", PBool true)]; device_arg d] ;;
  ret tt.

(** A sleep of the main thread, where a user interrupt is delivered. *)
Definition sleep_main (f : string) (seconds : Z) : M pyval :=
  let* tr := gets trace in
  if interrupted env tr then raise KeyboardInterrupt
  else ext f [PInt seconds].

(** [heartbeat_loop], for [fuel] rounds. *)
Fixpoint heartbeat_loop (fuel : nat) : M unit :=
  match fuel with
  | O => ret tt
  | S n =>
      let* r := gets running in
      if r then
        try_except update_heartbeat
          (fun e => logger_error "Heartbeat error: {}" [PStr e]) ;;
        ext "time.sleep" [PInt 30] ;;
        heartbeat_loop n
      else ret tt
  end.

Definition process_pending_commands (hs : gmap string Handler) : M unit :=
  try_except
    (let* data := select_pending in
     for_each data (process_command hs) ;;
     match data with
     | [] => ret tt
     | _ => logger_info "Processed {} pending commands"
                        [PInt (Z.of_nat (length data))]
     end)
    (fun e => logger_error "Error processing pending commands: {}" [PStr e]).

(** The [while self.running] loop of [listen_polling], for [fuel] rounds. *)
Fixpoint polling_loop (hs : gmap string Handler) (fuel : nat) : M unit :=
  match fuel with
  | O => ret tt
  | S n =>
      let* r := gets running in
      if r then
        try_except
          (let* data := select_pending in
           for_each data (process_command hs) ;;
           update_heartbeat)
          (fun e => logger_error "Listen loop error: {}" [PStr e]) ;;
        sleep_main "time.sleep" 3 ;;
        polling_loop hs n
      else ret tt
  end.

Definition listen_polling (hs : gmap string Handler) (fuel : nat) : M unit :=
  logger_info "Using polling mode (fallback)..." [] ;;
  polling_loop hs fuel.

(** The payloads the subscribed channel hands to [handle_insert] while the
    main coroutine sleeps. *)
Definition delivered (v : pyval) : list pyval :=
  match v with PList l => l | _ => [] end.

(** The [while self.running] loop of [listen_realtime], for [fuel] rounds. *)
Fixpoint keep_alive (hs : gmap string Handler) (fuel : nat) : M unit :=
  match fuel with
  | O => ret tt
  | S n =>
      let* r := gets running in
      if r then
        let* events := sleep_main "asyncio.sleep" 1 in
        for_each (delivered events) (on_command_received hs) ;;
        keep_alive hs n
      else ret tt
  end.

Definition banner : string :=
  "==================================================".

Definition listen_realtime (hs : gmap string Handler) (fuel : nat) : M unit :=
  ext "create_async_client" [PStr SUPABASE_URL; PStr SUPABASE_ANON_KEY] ;;
  ext "realtime_client.channel" [PStr "commands-channel"] ;;
  let* d := gets device_id in
  ext "channel.on_postgres_changes"
      [PStr "INSERT"; PStr "public"; PStr "commands";
       PStr ("device_id=eq." ++ py_str (device_arg d))] ;;
  ext "channel.subscribe" [] ;;
  logger_info banner [] ;;
  logger_info "REALTIME MODE - Commands execute INSTANTLY!" [] ;;
  logger_info banner [] ;;
  keep_alive hs fuel.

(** [asyncio.run(self.listen_realtime())] inside its [try] statement. *)
Definition run_realtime (hs : gmap string Handler) (fuel : nat) : M unit :=
  fun st =>
    match listen_realtime hs fuel st with
    | (Raise KeyboardInterrupt, st') =>
        (logger_info "Command listener stopped by user" [] ;;
         modify (set_running false)) st'
    | (Raise (Exception e), st') =>
        (logger_error "Realtime failed: {}" [PStr e] ;;
         logger_info "Falling back to polling mode..." [] ;;
         listen_polling hs fuel) st'
    | r => r
    end.

Definition listen (hs : gmap string Handler) (fuel : nat) : M unit :=
  logger_info "Starting command listener..." [] ;;
  let* d := gets device_id in
  if negb (truthy (device_arg d)) then
    logger_error "No device configured. Run installer first." []
  else
    logger_info "Device ID: {}" [device_arg d] ;;
    modify (set_running true) ;;
    process_pending_commands hs ;;
    ext "threading.Thread.start" [PStr "heartbeat_loop"] ;;
    logger_info "Heartbeat thread started" [] ;;
    if REALTIME_AVAILABLE env then run_realtime hs fuel
    else
      logger_info "Realtime not available, using polling mode" [] ;;
      listen_polling hs fuel.

End Listener.

(** * Reasoning about computations *)

(** ** What a computation may do

    [grows P L st st'] relates a state to a later one: the trace has grown
    by calls whose callee satisfies [P], the log by records whose text
    satisfies [L], the rows of the remote table have kept their identity
    and only moved to the status completed, and the device identity is the
    same. *)

Definition row_evolves (r r' : Row) : Prop :=
  row_id r' = row_id r /\ row_device_id r' = row_device_id r /\
  row_command r' = row_command r /\
  (row_status r' = row_status r \/ row_status r' = "completed").

Definition evolves (t t' : list Row) : Prop := Forall2 row_evolves t t'.

Record grows (P L : string -> bool) (st st' : State) : Prop := mkGrows {
  grows_trace : exists dt, trace st' = (trace st ++ dt)%list /\
                           forallb (fun c => P (callee c)) dt = true;
  grows_log : exists dl, log st' = (log st ++ dl)%list /\
                         forallb (fun r => L (log_fmt r)) dl = true;
  grows_table : evolves (commands_table st) (commands_table st');
  grows_device : device_id st' = device_id st;
}.

(** [sat P L ki m]: whatever the state, [m] makes it grow within [P] and
    [L], and unless [ki] is set it does not raise [KeyboardInterrupt]. *)
Definition sat (P L : string -> bool) (ki : bool) {A} (m : M A) : Prop :=
  forall st, grows P L st (snd (m st)) /\
             (ki = false -> fst (m st) <> Raise KeyboardInterrupt).

Lemma row_evolves_refl r : row_evolves r r.
Proof. unfold row_evolves; auto. Qed.

Lemma row_evolves_trans r1 r2 r3 :
  row_evolves r1 r2 -> row_evolves r2 r3 -> row_evolves r1 r3.
Proof.
  unfold row_evolves. intros (Hi & Hd & Hc & Hs) (Hi' & Hd' & Hc' & Hs').
  repeat split; try congruence.
  destruct Hs' as [Hs' | Hs']; [rewrite Hs'; exact Hs | right; exact Hs'].
Qed.

Lemma evolves_refl t : evolves t t.
Proof. induction t; constructor; auto using row_evolves_refl. Qed.

Lemma evolves_trans t1 t2 t3 : evolves t1 t2 -> evolves t2 t3 -> evolves t1 t3.
Proof.
  intros H; revert t3.
  induction H as [| r1 r2 t1 t2 Hr _ IH]; intros t3 H3;
    inversion H3; subst; constructor;
    [eapply row_evolves_trans; eassumption | apply IH; assumption].
Qed.

Section Frame.

Variable env : Env.
Variables P L : string -> bool.

Lemma grows_refl st : grows P L st st.
Proof.
  split; [exists []; split; [symmetry; apply app_nil_r | reflexivity]
         | exists []; split; [symmetry; apply app_nil_r | reflexivity]
         | apply evolves_refl | reflexivity].
Qed.

Lemma grows_trans st1 st2 st3 :
  grows P L st1 st2 -> grows P L st2 st3 -> grows P L st1 st3.
Proof.
  intros [(dt & Ht & HP) (dl & Hl & HL) Hr Hd]
         [(dt' & Ht' & HP') (dl' & Hl' & HL') Hr' Hd'].
  split.
  - exists (dt ++ dt')%list. rewrite Ht', Ht, <- app_assoc. split; [reflexivity |].
    rewrite forallb_app, HP, HP'. reflexivity.
  - exists (dl ++ dl')%list. rewrite Hl', Hl, <- app_assoc. split; [reflexivity |].
    rewrite forallb_app, HL, HL'. reflexivity.
  - eapply evolves_trans; eassumption.
  - congruence.
Qed.

(** A state that differs only in fields [grows] does not constrain. *)
Lemma grows_same st st' :
  trace st' = trace st -> log st' = log st ->
  commands_table st' = commands_table st -> device_id st' = device_id st ->
  grows P L st st'.
Proof.
  intros Ht Hl Hc Hd. split.
  - exists []. rewrite Ht, app_nil_r. auto.
  - exists []. rewrite Hl, app_nil_r. auto.
  - rewrite Hc. apply evolves_refl.
  - exact Hd.
Qed.

Lemma sat_ret ki {A} (a : A) : sat P L ki (ret a).
Proof. intros st. split; [apply grows_refl | discriminate]. Qed.

Lemma sat_raise ki {A} msg : sat P L ki (@raise A (Exception msg)).
Proof. intros st. split; [apply grows_refl | discriminate]. Qed.

Lemma sat_interrupt {A} : sat P L true (@raise A KeyboardInterrupt).
Proof. intros st. split; [apply grows_refl | discriminate]. Qed.

Lemma sat_gets ki {A} (f : State -> A) : sat P L ki (gets f).
Proof. intros st. split; [apply grows_refl | discriminate]. Qed.

Lemma sat_bind ki {A B} (m : M A) (k : A -> M B) :
  sat P L ki m -> (forall a, sat P L ki (k a)) -> sat P L ki (bind m k).
Proof.
  intros Hm Hk st. unfold bind. specialize (Hm st).
  destruct (m st) as [[a | e] st1]; simpl in *.
  - destruct Hm as [Hg _]. destruct (Hk a st1) as [Hg' Hn].
    split; [eapply grows_trans; eassumption | exact Hn].
  - destruct Hm as [Hg Hn]. split; [exact Hg |].
    intros Hki Heq. apply (Hn Hki). congruence.
Qed.

Lemma sat_try_except ki {A} (body : M A) (h : string -> M A) :
  sat P L ki body -> (forall e, sat P L ki (h e)) -> sat P L ki (try_except body h).
Proof.
  intros Hb Hh st. unfold try_except. specialize (Hb st).
  destruct (body st) as [[a | [msg |]] st1]; simpl in *; try exact Hb.
  destruct Hb as [Hg _]. destruct (Hh msg st1) as [Hg' Hn].
  split; [eapply grows_trans; eassumption | exact Hn].
Qed.

Lemma sat_try_bare ki ki' {A} (body h : M A) :
  sat P L ki' body -> sat P L ki h -> sat P L ki (try_bare body h).
Proof.
  intros Hb Hh st. unfold try_bare. specialize (Hb st).
  destruct (body st) as [[a | e] st1]; simpl in *.
  - destruct Hb as [Hg _]. split; [exact Hg | discriminate].
  - destruct Hb as [Hg _]. destruct (Hh st1) as [Hg' Hn].
    split; [eapply grows_trans; eassumption | exact Hn].
Qed.

Lemma sat_weaken {A} (m : M A) ki : sat P L false m -> sat P L ki m.
Proof. intros H st. destruct (H st) as [Hg Hn]. split; auto. Qed.

Lemma sat_ext ki f args : P f = true -> sat P L ki (ext env f args).
Proof.
  intros HP st. unfold ext.
  assert (Hg : grows P L st (set_trace (trace st ++ [mkCall f args]) st)).
  { split; simpl; [| exists []; rewrite app_nil_r; auto
                   | apply evolves_refl | reflexivity].
    exists [mkCall f args]. simpl. rewrite HP. auto. }
  destruct (answer env (trace st) (mkCall f args)); simpl;
    (split; [exact Hg | discriminate]).
Qed.

Lemma sat_logger ki lv fmt args : L fmt = true -> sat P L ki (logger lv fmt args).
Proof.
  intros HL st. unfold logger, modify. simpl. split; [| discriminate].
  split; simpl; [exists []; rewrite app_nil_r; auto | | apply evolves_refl
                 | reflexivity].
  exists [mkLog lv fmt args]. simpl. rewrite HL. auto.
Qed.

Lemma sat_modify ki (f : State -> State) :
  (forall st, grows P L st (f st)) -> sat P L ki (modify f).
Proof. intros H st. unfold modify. simpl. split; [apply H | discriminate]. Qed.

Lemma sat_for_each ki {A} (xs : list A) (body : A -> M unit) :
  (forall x, sat P L ki (body x)) -> sat P L ki (for_each xs body).
Proof.
  intros H. induction xs as [| x xs IH]; simpl.
  - apply sat_ret.
  - apply sat_bind; auto.
Qed.

End Frame.

(** ** What the handlers may do *)

Definition mem (n : string) (l : list string) : bool := existsb (String.eqb n) l.

(** The collaborators the command handlers call. *)
Definition handler_calls : list string :=
  ["open.read"; "storage.upload"; "storage.get_public_url";
   "devices.update.execute"; "datetime.now.strftime";
   "threading.Thread.start"; "socket.gethostname"; "os.environ.get";
   "psutil.boot_time"; "psutil.virtual_memory"; "psutil.disk_usage";
   "platform.platform"; "psutil.cpu_percent"; "ImageGrab.grab";
   "screenshot.save"; "cap.read"; "cv2.imwrite"; "time.sleep";
   "cv2.VideoCapture"; "cap.isOpened"; "cap.release"; "requests.get";
   "response.json"; "psutil.sensors_battery"; "subprocess.run";
   "wmi_client.details"; "sd.rec"; "sd.wait"; "wav_write"; "sd.stop";
   "psutil.process_iter"; "ctypes.windll.user32.LockWorkStation"].

(** The texts the command handlers log. *)
Definition handler_fmts : list string :=
  ["Upload failed: {}"; "Recording audio for {} seconds..."].

Ltac allowed :=
  first [ assumption | reflexivity
        | match goal with
          | H : forall n, mem n _ = true -> ?P n = true |- ?P _ = true =>
              apply H; reflexivity
          end ].

Ltac sat_step :=
  match goal with
  | |- sat _ _ _ (bind _ _) => apply sat_bind; [| intros ?]
  | |- sat _ _ _ (try_except _ _) => apply sat_try_except; [| intros ?]
  | |- sat _ _ _ (try_bare _ _) => apply sat_try_bare with (ki' := true)
  | |- sat _ _ _ (ret _) => apply sat_ret
  | |- sat _ _ _ (raise (Exception _)) => apply sat_raise
  | |- sat _ _ _ (gets _) => apply sat_gets
  | |- sat _ _ _ (ext _ _ _) => apply sat_ext; allowed
  | |- sat _ _ _ (logger _ _ _) => apply sat_logger; allowed
  | |- sat _ _ _ (modify _) =>
      apply sat_modify; intros ?; apply grows_same; reflexivity
  | |- sat _ _ _ (if ?b then _ else _) => destruct b
  | |- sat _ _ _ (match ?x with _ => _ end) => destruct x
  end.

Ltac sat_auto :=
  unfold py_get, py_int, py_len, getitem, getattr, attribute_error, py_lower,
    timestamp, utcnow_isoformat, logger_info, logger_error, logger_warning;
  repeat sat_step.

Section HandlerFrame.

Variable env : Env.
Variables P L : string -> bool.

Lemma upload_file_sat ki dir filename bucket :
  P "open.read" = true -> P "storage.upload" = true ->
  P "storage.get_public_url" = true -> L "Upload failed: {}" = true ->
  sat P L ki (upload_file env dir filename bucket).
Proof. intros. unfold upload_file. sat_auto. Qed.

Lemma update_device_location_sat ki loc :
  P "devices.update.execute" = true ->
  L "Failed to update location: {}" = true ->
  sat P L ki (update_device_location env loc).
Proof. intros. unfold update_device_location. sat_auto. Qed.

Lemma cmd_location_sat ki args :
  P "requests.get" = true -> P "response.json" = true ->
  sat P L ki (cmd_location env args).
Proof. intros. unfold cmd_location. sat_auto. Qed.

Lemma start_task_sat ki k d :
  P "threading.Thread.start" = true -> sat P L ki (start_task env k d).
Proof. intros. unfold start_task. sat_auto. Qed.

Lemma photo_count_sat ki args : sat P L ki (photo_count env args).
Proof. unfold photo_count. sat_auto. Qed.

(** The part of a loop round of [cmd_photo] that follows [cap.read()]. *)
Lemma capture_frame_sat ki i photos :
  P "cap.read" = true -> P "datetime.now.strftime" = true ->
  P "cv2.imwrite" = true -> P "time.sleep" = true ->
  P "open.read" = true -> P "storage.upload" = true ->
  P "storage.get_public_url" = true -> L "Upload failed: {}" = true ->
  sat P L ki (capture_frame env i photos).
Proof.
  intros. unfold capture_frame. sat_auto; apply upload_file_sat; assumption.
Qed.

Lemma capture_frames_sat ki indices photos :
  P "cap.read" = true -> P "datetime.now.strftime" = true ->
  P "cv2.imwrite" = true -> P "time.sleep" = true ->
  P "open.read" = true -> P "storage.upload" = true ->
  P "storage.get_public_url" = true -> L "Upload failed: {}" = true ->
  sat P L ki (capture_frames env indices photos).
Proof.
  intros. revert photos. induction indices as [| i rest IH]; intros photos; simpl.
  - apply sat_ret.
  - apply sat_bind; [apply capture_frame_sat; assumption | intros; apply IH].
Qed.

Hypothesis HP : forall n, mem n handler_calls = true -> P n = true.
Hypothesis HL : forall n, mem n handler_fmts = true -> L n = true.

Ltac sub_sat :=
  first [ apply upload_file_sat | apply cmd_location_sat | apply start_task_sat
        | apply photo_count_sat | apply capture_frames_sat ]; allowed.

Lemma cmd_status_sat ki args : sat P L ki (cmd_status env args).
Proof. unfold cmd_status. sat_auto. Qed.

Lemma cmd_screenshot_sat ki args : sat P L ki (cmd_screenshot env args).
Proof. unfold cmd_screenshot. sat_auto. sub_sat. Qed.

Lemma cmd_photo_sat ki args : sat P L ki (cmd_photo env args).
Proof. unfold cmd_photo. sat_auto; sub_sat. Qed.

Lemma cmd_battery_sat ki args : sat P L ki (cmd_battery env args).
Proof. unfold cmd_battery. sat_auto. Qed.

Lemma cmd_wifiinfo_sat ki args : sat P L ki (cmd_wifiinfo env args).
Proof. unfold cmd_wifiinfo. sat_auto. Qed.

Lemma cmd_sysinfo_sat ki args : sat P L ki (cmd_sysinfo env args).
Proof. unfold cmd_sysinfo. sat_auto. apply cmd_status_sat. Qed.

Lemma cmd_audio_sat ki args : sat P L ki (cmd_audio env args).
Proof. unfold cmd_audio. sat_auto; sub_sat. Qed.

Lemma cmd_alarm_sat ki args : sat P L ki (cmd_alarm env args).
Proof. unfold cmd_alarm. sat_auto; sub_sat. Qed.

Lemma cmd_findme_sat ki args : sat P L ki (cmd_findme env args).
Proof. unfold cmd_findme. sat_auto; sub_sat. Qed.

Lemma cmd_stopfind_sat ki args : sat P L ki (cmd_stopfind args).
Proof. unfold cmd_stopfind. sat_auto. Qed.

Lemma cmd_stop_sat ki args : sat P L ki (cmd_stop env args).
Proof. unfold cmd_stop, stop_slot. sat_auto. Qed.

Lemma cmd_listnetworks_sat ki args : sat P L ki (cmd_listnetworks env args).
Proof. unfold cmd_listnetworks. sat_auto. Qed.

Lemma cmd_appusage_sat ki args : sat P L ki (cmd_appusage env args).
Proof. unfold cmd_appusage. sat_auto. Qed.

Lemma cmd_lockscreen_sat ki args : sat P L ki (cmd_lockscreen env args).
Proof. unfold cmd_lockscreen. sat_auto. Qed.

Lemma cmd_shutdown_sat ki args : sat P L ki (cmd_shutdown env args).
Proof. unfold cmd_shutdown. sat_auto. Qed.

Lemma cmd_restart_sat ki args : sat P L ki (cmd_restart env args).
Proof. unfold cmd_restart. sat_auto. Qed.

(** Every handler of the registry stays within [handler_calls] and
    [handler_fmts] and raises no [KeyboardInterrupt]. *)
Lemma handlers_sat ki name h args :
  handlers env !! name = Some h -> sat P L ki (h args).
Proof.
  intros Hh. unfold handlers in Hh.
  apply elem_of_list_to_map_2 in Hh. unfold handler_table in Hh.
  repeat (apply elem_of_cons in Hh; destruct Hh as [Hh | Hh];
          [injection Hh as _ ->;
           first [ apply cmd_status_sat | apply cmd_screenshot_sat
                 | apply cmd_photo_sat | apply cmd_location_sat; allowed
                 | apply cmd_battery_sat | apply cmd_wifiinfo_sat
                 | apply cmd_sysinfo_sat | apply cmd_audio_sat
                 | apply cmd_alarm_sat | apply cmd_findme_sat
                 | apply cmd_stopfind_sat | apply cmd_stop_sat
                 | apply cmd_listnetworks_sat | apply cmd_appusage_sat
                 | apply cmd_lockscreen_sat | apply cmd_shutdown_sat
                 | apply cmd_restart_sat ] |]).
  inversion Hh.
Qed.

End HandlerFrame.

(** ** The dispatcher *)

Definition is_completion (c : Call) : bool :=
  String.eqb (callee c) "commands.update.execute".

(** The completion writes of a trace, oldest first. *)
Definition completions (tr : list Call) : list Call := List.filter is_completion tr.

(** The completion write of [result] for the record [cmd_id], made when
    the trace is [tr]. *)
Definition completion_call (env : Env) (tr : list Call) (cmd_id result : pyval)
    : Call :=
  mkCall "commands.update.execute"
         [completion_payload (PStr (json_dumps env result)) (PStr (utcnow env tr));
          cmd_id].

(** The arguments as [process_command] hands them to the handler. *)
Definition normalized (env : Env) (command : dict) : pyval :=
  match dict_get command "args" with
  | None => PDict []
  | Some (PStr s) => default (PDict []) (json_loads env s)
  | Some v => v
  end.

(** The rest of [process_command] once the identifier, the lower-cased
    name and the arguments are known, for a result computed by [run]. *)
Definition report (env : Env) (cmd_id : pyval) (cmd_name : string)
    (run : M pyval) : M unit :=
  logger_info "Processing command: {}" [PStr cmd_name] ;;
  let* result := run in
  update_command_result env cmd_id result ;;
  let* success := py_get result "success" PNone in
  logger_info "Command {} completed: {}" [PStr cmd_name; success].

Definition add_log (r : LogRecord) (st : State) : State :=
  set_log (log st ++ [r]) st.

Definition add_call (c : Call) (st : State) : State :=
  set_trace (trace st ++ [c]) st.

Section Dispatch.

Variable env : Env.

(** A completion write is attempted exactly once; when the store accepts
    it the matching rows are completed, and when the store fails the
    failure is logged and nothing is raised. *)
Lemma update_command_result_run cmd_id result st :
  let c := completion_call env (trace st) cmd_id result in
  update_command_result env cmd_id result st =
    match answer env (trace st) c with
    | inl _ =>
        (Ok tt, set_commands_table
                  (apply_completion cmd_id (PStr (json_dumps env result))
                     (PStr (utcnow env (trace st))) (commands_table st))
                  (add_call c st))
    | inr msg =>
        (Ok tt, add_log (mkLog ERROR "Failed to update command result: {}" [PStr msg])
                        (add_call c st))
    end.
Proof.
  unfold update_command_result, try_except, bind, utcnow_isoformat, gets, ret,
    ext, completion_call. simpl.
  destruct (answer env (trace st) _); reflexivity.
Qed.

Lemma process_command_run hs command cmd_id name st :
  dict_get command "id" = Some cmd_id ->
  dict_get command "command" = Some (PStr name) ->
  process_command env hs command st =
    try_except
      (report env cmd_id (str_lower env name)
         (match hs !! str_lower env name with
          | Some h => h (normalized env command)
          | None => ret (unknown_command (str_lower env name))
          end))
      (fun e => logger_error "Error processing command: {}" [PStr e]) st.
Proof.
  intros Hid Hname.
  unfold process_command, process_command_body, report, normalized, try_except,
    getitem, py_lower.
  unfold bind at 1. rewrite Hid. unfold ret at 1.
  unfold bind at 1. rewrite Hname. unfold ret at 1.
  unfold bind at 1. unfold ret at 1.
  destruct (dict_get command "args") as [[| | | | | s | |] |]; try reflexivity.
  unfold bind at 1. simpl. unfold try_bare.
  destruct (json_loads env s); reflexivity.
Qed.

End Dispatch.

Section DispatchFrame.

Variable env : Env.
Variables P L : string -> bool.

Lemma apply_completion_evolves cmd_id result now t :
  evolves t (apply_completion cmd_id result now t).
Proof.
  unfold apply_completion. induction t as [| r t IH]; simpl; constructor; auto.
  destruct (id_matches cmd_id r); [| apply row_evolves_refl].
  unfold row_evolves; simpl; auto.
Qed.

Hypothesis HPupdate : P "commands.update.execute" = true.
Hypothesis HLupdate : L "Failed to update command result: {}" = true.
Hypothesis HLprocessing : L "Processing command: {}" = true.
Hypothesis HLcompleted : L "Command {} completed: {}" = true.
Hypothesis HLerror : L "Error processing command: {}" = true.

Lemma update_command_result_sat ki cmd_id result :
  sat P L ki (update_command_result env cmd_id result).
Proof.
  unfold update_command_result. sat_auto.
  apply sat_modify. intros st. split; simpl.
  - exists []. rewrite app_nil_r. auto.
  - exists []. rewrite app_nil_r. auto.
  - apply apply_completion_evolves.
  - reflexivity.
Qed.

Variable hs : gmap string Handler.
Hypothesis Hhs : forall name h args, hs !! name = Some h -> sat P L false (h args).

Lemma process_command_body_sat command :
  sat P L false (process_command_body env hs command).
Proof.
  unfold process_command_body, py_get, getitem, py_lower, attribute_error,
    logger_info.
  repeat first
    [ match goal with
      | |- sat _ _ _ (match hs !! ?n with _ => _ end) =>
          destruct (hs !! n) eqn:Hh; [eapply Hhs; exact Hh | apply sat_ret]
      end
    | apply update_command_result_sat
    | sat_step ].
Qed.

Lemma process_command_sat ki command :
  sat P L ki (process_command env hs command).
Proof.
  apply sat_weaken. unfold process_command. sat_auto.
  apply process_command_body_sat.
Qed.

(** [process_command] returns normally, whatever the record. *)
Lemma process_command_returns command st :
  exists st', process_command env hs command st = (Ok tt, st').
Proof.
  destruct (process_command_body_sat command st) as [_ Hn].
  unfold process_command, try_except.
  destruct (process_command_body env hs command st) as [[[] | [msg |]] st1];
    simpl in *.
  - eauto.
  - unfold logger_error, logger, modify. eauto.
  - exfalso. apply Hn; reflexivity.
Qed.

End DispatchFrame.

Definition anything : string -> bool := fun _ => true.

(** The registry of the program returns normally on every record. *)
Lemma process_command_total env command st :
  exists st', process_command env (handlers env) command st = (Ok tt, st').
Proof.
  apply process_command_returns with (P := anything) (L := anything);
    try reflexivity.
  intros name h args Hh. eapply handlers_sat; eauto.
Qed.

(** * Properties of the dispatcher *)

(** ** Concrete environments and records, for the examples *)

Definition silent (tr : list Call) (c : Call) : pyval + string := inl PNone.

Definition example_json_loads (s : string) : option pyval :=
  if String.eqb s "{}" then Some (PDict [])
  else if String.eqb s "[]" then Some (PList [])
  else if String.eqb s "10" then Some (PInt 10)
  else None.

Definition example_int_of_str (s : string) : option Z :=
  if String.eqb s "10" then Some 10 else None.

(** [str.lower()] on the names the examples use, which are ASCII: the
    capitals are lowered and every other byte is kept. *)
Definition ascii_lower_char (c : Ascii.ascii) : Ascii.ascii :=
  let n := Ascii.nat_of_ascii c in
  if (Nat.leb 65 n && Nat.leb n 90)%bool then Ascii.ascii_of_nat (n + 32) else c.

Fixpoint ascii_lower (s : string) : string :=
  match s with
  | EmptyString => EmptyString
  | String c s' => String (ascii_lower_char c) (ascii_lower s')
  end.

(** An environment whose collaborators answer as [ans] says, with no user
    interrupt. *)
Definition example_env (ans : list Call -> Call -> pyval + string)
    (realtime : bool) : Env :=
  mkEnv ans example_json_loads (fun _ => "<json>") ascii_lower
        example_int_of_str (fun _ => "<message of int()>")
        (fun _ => "2024-01-01T00:00:00") (fun _ => false) realtime.

Definition quiet_env : Env := example_env silent true.

Definition initial_state (table : list Row) : State :=
  mkState (Some "device-1") false ∅ [] [] [] table.

Definition example_record (name : string) (args : pyval) : dict :=
  [("id", PStr "c-1"); ("device_id", PStr "device-1"); ("command", PStr name);
   ("args", args); ("status", PStr "pending")].

Section DispatcherClaims.

Variable env : Env.

Lemma update_trace cmd_id result st :
  trace (snd (update_command_result env cmd_id result st)) =
  (trace st ++ [completion_call env (trace st) cmd_id result])%list.
Proof.
  rewrite update_command_result_run. simpl.
  destruct (answer env (trace st) _); reflexivity.
Qed.

Lemma update_returns cmd_id result st :
  fst (update_command_result env cmd_id result st) = Ok tt.
Proof.
  rewrite update_command_result_run. simpl.
  destruct (answer env (trace st) _); reflexivity.
Qed.

(** [report] for a handler call that returned a dictionary. *)
Lemma report_dict cmd_id cmd_name run st d st1 :
  run (add_log (mkLog INFO "Processing command: {}" [PStr cmd_name]) st)
    = (Ok (PDict d), st1) ->
  report env cmd_id cmd_name run st =
    (Ok tt,
     add_log (mkLog INFO "Command {} completed: {}"
                [PStr cmd_name; default PNone (dict_get d "success")])
       (snd (update_command_result env cmd_id (PDict d) st1))).
Proof.
  intros Hrun. unfold report, bind, logger_info, logger, modify. simpl.
  unfold add_log in Hrun. rewrite Hrun.
  pose proof (update_returns cmd_id (PDict d) st1) as Hu.
  destruct (update_command_result env cmd_id (PDict d) st1) as [[[] | e] st2];
    simpl in *; [reflexivity | discriminate].
Qed.

(** [report] for a handler call that raised. *)
Lemma report_raise cmd_id cmd_name run st e st1 :
  run (add_log (mkLog INFO "Processing command: {}" [PStr cmd_name]) st)
    = (Raise e, st1) ->
  report env cmd_id cmd_name run st = (Raise e, st1).
Proof.
  intros Hrun. unfold report, bind, logger_info, logger, modify. simpl.
  unfold add_log in Hrun. rewrite Hrun. reflexivity.
Qed.

(** C2. A record whose command name, once [str.lower()] has lowered it,
    is not a key of the handler registry gets exactly one completion
    write, with the result
    [{success: False, error: "Unknown command: <lowered name>"}], and
    [process_command] returns normally: the only external call it makes is
    that write. *)
Theorem unknown_command_completed_once
    (hs : gmap string Handler) (command : dict) (cmd_id : pyval)
    (name : string) (st : State) :
  dict_get command "id" = Some cmd_id ->
  dict_get command "command" = Some (PStr name) ->
  hs !! str_lower env name = None ->
  exists st',
    process_command env hs command st = (Ok tt, st') /\
    trace st' =
      (trace st ++ [completion_call env (trace st) cmd_id
                      (PDict [("success", PBool false);
                              ("error", PStr ("Unknown command: " ++ str_lower env name))])])%list.
Proof.
  intros Hid Hname Hnone.
  rewrite (process_command_run env hs command cmd_id name st Hid Hname), Hnone.
  unfold try_except.
  erewrite report_dict by reflexivity.
  eexists. split; [reflexivity |].
  simpl. rewrite update_trace. reflexivity.
Qed.

End DispatcherClaims.

Lemma unknown_command_completed_once_witness :
  exists st',
    process_command quiet_env (handlers quiet_env)
      (example_record "Dance" (PDict [])) (initial_state []) = (Ok tt, st') /\
    trace st' =
      [completion_call quiet_env [] (PStr "c-1")
         (PDict [("success", PBool false);
                 ("error", PStr "Unknown command: dance")])].
Proof.
  apply (unknown_command_completed_once quiet_env (handlers quiet_env)
           (example_record "Dance" (PDict [])) (PStr "c-1") "Dance"
           (initial_state [])); reflexivity.
Defined.

Section DispatcherClaims2.

Variable env : Env.

Definition processing_error (msg : string) : LogRecord :=
  mkLog ERROR "Error processing command: {}" [PStr msg].

Definition processing (cmd_name : string) : LogRecord :=
  mkLog INFO "Processing command: {}" [PStr cmd_name].

(** [process_command] wrapped around [report]: the [try] statement of the
    source. *)
Definition guarded_report (cmd_id : pyval) (cmd_name : string) (run : M pyval)
    : M unit :=
  try_except (report env cmd_id cmd_name run)
    (fun e => logger_error "Error processing command: {}" [PStr e]).

(** C5. When the [args] of a record is a string, the handler is called on
    what [json.loads] makes of it; when [json.loads] fails, the handler is
    called on the empty dictionary, and the record is processed exactly as
    the same record with [args = {}] would be: the parse failure is neither
    logged nor reported in the result. *)
Theorem string_args_parsed_before_handler
    (hs : gmap string Handler) (command : dict) (cmd_id : pyval)
    (name s : string) (h : Handler) (st : State) :
  dict_get command "id" = Some cmd_id ->
  dict_get command "command" = Some (PStr name) ->
  dict_get command "args" = Some (PStr s) ->
  hs !! str_lower env name = Some h ->
  (forall v, json_loads env s = Some v ->
     process_command env hs command st =
       guarded_report cmd_id (str_lower env name) (h v) st) /\
  (json_loads env s = None ->
     process_command env hs command st =
       guarded_report cmd_id (str_lower env name) (h (PDict [])) st /\
     process_command env hs command st =
       process_command env hs (("args", PDict []) :: command) st).
Proof.
  intros Hid Hname Hargs Hh. split.
  - intros v Hv.
    rewrite (process_command_run env hs command cmd_id name st Hid Hname), Hh.
    unfold normalized. rewrite Hargs, Hv. reflexivity.
  - intros Hv.
    rewrite (process_command_run env hs command cmd_id name st Hid Hname), Hh.
    rewrite (process_command_run env hs (("args", PDict []) :: command)
               cmd_id name st) by (simpl; assumption).
    rewrite Hh. unfold normalized. rewrite Hargs, Hv. simpl. split; reflexivity.
Qed.

(** C10. [process_command] is total on dictionaries: with the registry of
    the program it returns normally on every record and in every state.
    When the record has no ['id'], or has one but no ['command'], the
    KeyError is logged and nothing else changes: no handler has run and no
    completion has been written. *)
Theorem process_command_never_raises (command : dict) (st : State) :
  exists st',
    process_command env (handlers env) command st = (Ok tt, st') /\
    (dict_get command "id" = None ->
       st' = add_log (processing_error "'id'") st) /\
    (dict_get command "id" <> None -> dict_get command "command" = None ->
       st' = add_log (processing_error "'command'") st).
Proof.
  destruct (process_command_total env command st) as [st' Hrun].
  exists st'. split; [exact Hrun |].
  unfold process_command, process_command_body, try_except, getitem in Hrun.
  split.
  - intros Hid. unfold bind at 1 in Hrun. rewrite Hid in Hrun.
    simpl in Hrun. injection Hrun as <-. reflexivity.
  - intros Hid Hname. unfold bind at 1 in Hrun.
    destruct (dict_get command "id") as [cmd_id |]; [| congruence].
    unfold ret at 1 in Hrun. unfold bind at 1 in Hrun. rewrite Hname in Hrun.
    simpl in Hrun. injection Hrun as <-. reflexivity.
Qed.

End DispatcherClaims2.

(** An environment in which locking the workstation fails. *)
Definition lock_denied (tr : list Call) (c : Call) : pyval + string :=
  if String.eqb (callee c) "ctypes.windll.user32.LockWorkStation"
  then inr "access denied" else inl PNone.

Lemma string_args_parsed_before_handler_witness :
  process_command quiet_env (handlers quiet_env)
    (example_record "stopfind" (PStr "{not json")) (initial_state [])
  = process_command quiet_env (handlers quiet_env)
      (("args", PDict []) :: example_record "stopfind" (PStr "{not json"))
      (initial_state []).
Proof.
  apply (string_args_parsed_before_handler quiet_env (handlers quiet_env)
           (example_record "stopfind" (PStr "{not json")) (PStr "c-1")
           "stopfind" "{not json" cmd_stopfind (initial_state [])
           eq_refl eq_refl eq_refl eq_refl).
  reflexivity.
Defined.

(** * The running-task slots *)

(** C8. [cmd_stopfind] sets the findme slot to [False], whatever it held
    and whatever its arguments, leaves every other slot as it was, touches
    nothing else and returns [{success: True, message: "Find Me stopped"}]. *)
Theorem stopfind_cancels_findme_only (args : pyval) (st : State) :
  exists st',
    cmd_stopfind args st =
      (Ok (PDict [("success", PBool true); ("message", PStr "Find Me stopped")]),
       st') /\
    running_commands st' !! "findme" = Some false /\
    (forall k, k <> "findme" ->
       running_commands st' !! k = running_commands st !! k) /\
    st' = set_running_commands (running_commands st') st.
Proof.
  eexists. split; [reflexivity |]. cbn [running_commands set_running_commands].
  split; [apply lookup_insert_eq |]. split; [| reflexivity].
  intros k Hk. apply lookup_insert_ne. congruence.
Qed.

Section Stop.

Variable env : Env.

Definition sd_stop : Call := mkCall "sd.stop" [].

(** The slot updates of [cmd_stop], as one function of the slot map. *)
Definition stop_slots (rc : gmap string bool) : gmap string bool :=
  let rc1 := if slot_active rc "alarm" then <["alarm" := false]> rc else rc in
  if slot_active rc1 "findme" then <["findme" := false]> rc1 else rc1.

(** The kinds [cmd_stop] found active in the slot map. *)
Definition found_active (rc : gmap string bool) : list string :=
  ((if slot_active rc "alarm" then ["alarm"] else []) ++
   (if slot_active rc "findme" then ["findme"] else []))%list.

Lemma slot_active_insert_ne rc k k' b :
  k <> k' -> slot_active (<[k := b]> rc) k' = slot_active rc k'.
Proof. intros Hk. unfold slot_active. rewrite lookup_insert_ne; auto. Qed.

(** What [cmd_stop] returns and does, in every state. *)
Lemma cmd_stop_run args st :
  cmd_stop env args st =
    let rc := running_commands st in
    let stopped :=
      match answer env (trace st) sd_stop with
      | inl _ => (found_active rc ++ ["audio"])%list
      | inr _ => found_active rc
      end in
    (Ok (PDict [("success", PBool true);
                ("stopped", PList (map PStr stopped));
                ("message",
                 PStr match stopped with
                      | [] => "No active commands to stop"
                      | _ => "Stopped: " ++ String.concat ", " stopped
                      end)]),
     add_call sd_stop (set_running_commands (stop_slots rc) st)).
Proof.
  unfold cmd_stop, try_except, stop_slot, stop_slots, found_active, try_bare.
  unfold bind, gets, modify, ret, ext, add_call, sd_stop.
  cbn [running_commands set_running_commands trace set_trace].
  destruct (slot_active (running_commands st) "alarm") eqn:Ha;
    cbn [running_commands set_running_commands trace set_trace].
  - rewrite slot_active_insert_ne by discriminate.
    destruct (slot_active (running_commands st) "findme") eqn:Hf;
      cbn [running_commands set_running_commands trace set_trace];
      destruct (answer env (trace st) _); reflexivity.
  - destruct (slot_active (running_commands st) "findme") eqn:Hf;
      cbn [running_commands set_running_commands trace set_trace];
      destruct (answer env (trace st) _); reflexivity.
Qed.

(** The first half of C3 holds: an active alarm slot is reported and
    cancelled. *)
Lemma stop_cancels_active_alarm args st :
  slot_active (running_commands st) "alarm" = true ->
  exists stopped message st',
    cmd_stop env args st =
      (Ok (PDict [("success", PBool true);
                  ("stopped", PList (map PStr stopped));
                  ("message", PStr message)]), st') /\
    In "alarm" stopped /\
    running_commands st' !! "alarm" = Some false.
Proof.
  intros Ha. rewrite cmd_stop_run. cbv zeta.
  eexists _, _, _. split; [reflexivity |]. split.
  - unfold found_active. rewrite Ha.
    destruct (answer env (trace st) sd_stop); simpl; auto.
  - cbn [running_commands set_running_commands add_call set_trace].
    unfold stop_slots. rewrite Ha.
    rewrite slot_active_insert_ne by discriminate.
    destruct (slot_active (running_commands st) "findme").
    + rewrite lookup_insert_ne by discriminate. apply lookup_insert_eq.
    + apply lookup_insert_eq.
Qed.

(** C3, second half, on the code.  With no slot active, [cmd_stop] still
    calls [sd.stop()], and when that call returns it appends ["audio"]:
    the result is [stopped = ["audio"]] with the message ["Stopped: audio"],
    not the empty list and ["No active commands to stop"]. *)
Theorem stop_with_nothing_active_reports_audio (args v : pyval) (st : State) :
  slot_active (running_commands st) "alarm" = false ->
  slot_active (running_commands st) "findme" = false ->
  answer env (trace st) sd_stop = inl v ->
  cmd_stop env args st =
    (Ok (PDict [("success", PBool true);
                ("stopped", PList [PStr "audio"]);
                ("message", PStr "Stopped: audio")]),
     add_call sd_stop (set_running_commands (running_commands st) st)).
Proof.
  intros Ha Hf Hsd. rewrite cmd_stop_run. cbv zeta.
  unfold found_active, stop_slots. rewrite Ha, Hf, Hsd. reflexivity.
Qed.

(** The message of the empty list is reached only when [sd.stop()] raises. *)
Lemma stop_with_nothing_active_and_no_audio_device args msg st :
  slot_active (running_commands st) "alarm" = false ->
  slot_active (running_commands st) "findme" = false ->
  answer env (trace st) sd_stop = inr msg ->
  fst (cmd_stop env args st) =
    Ok (PDict [("success", PBool true); ("stopped", PList []);
               ("message", PStr "No active commands to stop")]).
Proof.
  intros Ha Hf Hsd. rewrite cmd_stop_run. cbv zeta.
  unfold found_active. rewrite Ha, Hf, Hsd. reflexivity.
Qed.

End Stop.

Lemma stop_with_nothing_active_reports_audio_witness :
  fst (cmd_stop quiet_env (PDict []) (initial_state [])) =
    Ok (PDict [("success", PBool true);
               ("stopped", PList [PStr "audio"]);
               ("message", PStr "Stopped: audio")]).
Proof.
  rewrite (stop_with_nothing_active_reports_audio quiet_env (PDict []) PNone
             (initial_state []) eq_refl eq_refl eq_refl).
  reflexivity.
Defined.

(** * The photo handler *)

(** A sequence whose first part returned continues with its value, and a
    sequence that returned went through both parts. *)
Lemma bind_ok {A B} (m : M A) (k : A -> M B) st a st' :
  m st = (Ok a, st') -> bind m k st = k a st'.
Proof. intros H. unfold bind. rewrite H. reflexivity. Qed.

Lemma bind_inv {A B} (m : M A) (k : A -> M B) st b st' :
  bind m k st = (Ok b, st') ->
  exists a s1, m st = (Ok a, s1) /\ k a s1 = (Ok b, st').
Proof.
  unfold bind. destruct (m st) as [[a | e] s1]; [eauto | discriminate].
Qed.

Ltac inv_bind H :=
  let a := fresh "a" in
  let s := fresh "s" in
  let H1 := fresh "Hm" in
  apply bind_inv in H as (a & s & H1 & H).


(** The number of calls to [f] in a trace. *)
Definition calls (f : string) (tr : list Call) : nat :=
  length (List.filter (fun c => String.eqb (callee c) f) tr).

Lemma calls_app f tr tr' : calls f (tr ++ tr') = (calls f tr + calls f tr')%nat.
Proof. unfold calls. rewrite List.filter_app, length_app. reflexivity. Qed.

(** Calls that [P] allows are not calls to a callee that [P] rejects. *)
Lemma calls_allowed (P : string -> bool) f dt :
  P f = false -> forallb (fun c => P (callee c)) dt = true -> calls f dt = 0%nat.
Proof.
  intros Hf. unfold calls. induction dt as [| c dt IH]; simpl; [reflexivity |].
  intros H. apply andb_true_iff in H as [Hc Hdt].
  destruct (String.eqb (callee c) f) eqn:E.
  - apply String.eqb_eq in E. congruence.
  - auto.
Qed.

Lemma grows_calls P L f st st' :
  P f = false -> grows P L st st' -> calls f (trace st') = calls f (trace st).
Proof.
  intros Hf [(dt & Ht & HP) _ _ _]. rewrite Ht, calls_app.
  rewrite (calls_allowed P f dt Hf HP). lia.
Qed.

(** Every collaborator of the handlers except [cap.read]. *)
Definition not_read (n : string) : bool :=
  mem n handler_calls && negb (String.eqb n "cap.read").

Section Photo.

Variable env : Env.

(** [m] reads at most [n] frames from the webcam. *)
Definition reads_le (n : nat) {A} (m : M A) : Prop :=
  forall st, (calls "cap.read" (trace (snd (m st)))
              <= calls "cap.read" (trace st) + n)%nat.

Lemma sat_reads_le {A} (m : M A) ki :
  sat not_read anything ki m -> reads_le 0 m.
Proof.
  intros H st. destruct (H st) as [Hg _].
  rewrite (grows_calls not_read anything "cap.read" st _ eq_refl Hg). lia.
Qed.

Lemma reads_le_bind {A B} (m : M A) (k : A -> M B) (Q : A -> Prop) n1 n2 :
  (forall st a st', m st = (Ok a, st') -> Q a) ->
  reads_le n1 m -> (forall a, Q a -> reads_le n2 (k a)) ->
  reads_le (n1 + n2) (bind m k).
Proof.
  intros HQ Hm Hk st. unfold bind. specialize (Hm st).
  destruct (m st) as [[a | e] st1] eqn:E; simpl in *.
  - specialize (Hk a (HQ _ _ _ E) st1). lia.
  - lia.
Qed.

Lemma reads_le_try_except {A} (body : M A) (h : string -> M A) n :
  reads_le n body -> (forall e, reads_le 0 (h e)) ->
  reads_le n (try_except body h).
Proof.
  intros Hb Hh st. unfold try_except. specialize (Hb st).
  destruct (body st) as [[a | [msg |]] st1]; simpl in *; try lia.
  specialize (Hh msg st1). lia.
Qed.

Lemma reads_le_weaken {A} (m : M A) n n' :
  (n <= n')%nat -> reads_le n m -> reads_le n' m.
Proof. intros Hn H st. specialize (H st). lia. Qed.

Lemma capture_frame_reads i photos : reads_le 1 (capture_frame env i photos).
Proof.
  unfold capture_frame.
  apply (reads_le_bind _ _ (fun _ => True) 1 0); [auto | |].
  - intros st. unfold ext.
    destruct (answer env (trace st) _); cbn [snd trace set_trace];
      rewrite calls_app;
      change (calls "cap.read" [mkCall "cap.read" []]) with 1%nat; lia.
  - intros r _. apply (sat_reads_le _ false). sat_auto.
    apply upload_file_sat; reflexivity.
Qed.

Lemma capture_frames_reads indices photos :
  reads_le (length indices) (capture_frames env indices photos).
Proof.
  revert photos. induction indices as [| i rest IH]; intros photos; simpl.
  - apply (sat_reads_le _ false), sat_ret.
  - apply (reads_le_bind _ _ (fun _ => True) 1 (length rest)); auto.
    apply capture_frame_reads.
Qed.

(** The count that [cmd_photo] loops over is at most 5. *)
Lemma photo_count_le_5 args st c st' :
  photo_count env args st = (Ok c, st') -> c <= 5.
Proof.
  unfold photo_count, bind, ret.
  destruct (py_get args "count" (PInt 1) st) as [[v | e] st1]; [| discriminate].
  destruct (py_int env v st1) as [[n | e] st2]; [| discriminate].
  intros H. injection H as <- _. lia.
Qed.

Lemma length_range n : length (range n) = Z.to_nat n.
Proof. unfold range. rewrite length_map, length_seq. reflexivity. Qed.

(** Whatever the arguments and the answers of the webcam, one call of
    [cmd_photo] reads at most 5 frames. *)
Lemma cmd_photo_reads_at_most_5 args : reads_le 5 (cmd_photo env args).
Proof.
  unfold cmd_photo. apply reads_le_try_except.
  2:{ intros e. apply (sat_reads_le _ false), sat_ret. }
  apply (reads_le_bind _ _ (fun c => c <= 5) 0 5).
  - intros st c st' H. eapply photo_count_le_5; eassumption.
  - apply (sat_reads_le _ false), photo_count_sat.
  - intros c Hc.
    apply (reads_le_bind _ _ (fun _ => True) 0 5); [auto | |].
    { apply (sat_reads_le _ false). sat_auto. }
    intros cap _.
    apply (reads_le_bind _ _ (fun _ => True) 0 5); [auto | |].
    { apply (sat_reads_le _ false). sat_auto. }
    intros opened _. destruct (negb (truthy opened)).
    { apply (reads_le_weaken _ 0); [lia |]. apply (sat_reads_le _ false), sat_ret. }
    apply (reads_le_bind _ _ (fun _ => True) 0 5); [auto | |].
    { apply (sat_reads_le _ false). sat_auto. }
    intros _ _.
    apply (reads_le_bind _ _ (fun _ => True) 5 0); [auto | |].
    { apply (reads_le_weaken _ (length (range c))).
      - rewrite length_range. lia.
      - apply capture_frames_reads. }
    intros photos _. apply (sat_reads_le _ false). sat_auto.
Qed.

(** Code that makes no call to [cap.read] leaves the number of reads as
    it was. *)
Lemma run_reads_same {A} (m : M A) st r s :
  sat not_read anything false m ->
  m st = (r, s) ->
  calls "cap.read" (trace s) = calls "cap.read" (trace st).
Proof.
  intros H Hrun. destruct (H st) as [Hg _]. rewrite Hrun in Hg.
  exact (grows_calls not_read anything "cap.read" st _ eq_refl Hg).
Qed.

(** One pass of the loop reads exactly one frame, whether it then saves
    the frame, skips it or fails. *)
Lemma capture_frame_one_read i photos st :
  calls "cap.read" (trace (snd (capture_frame env i photos st)))
  = S (calls "cap.read" (trace st)).
Proof.
  unfold capture_frame. unfold bind at 1.
  assert (Hread : calls "cap.read" (trace (snd (ext env "cap.read" [] st)))
                  = S (calls "cap.read" (trace st))).
  { unfold ext. destruct (answer env (trace st) _); cbn [snd trace set_trace];
      rewrite calls_app;
      change (calls "cap.read" [mkCall "cap.read" []]) with 1%nat; lia. }
  destruct (ext env "cap.read" [] st) as [[r | e] s1]; cbn [snd] in Hread;
    [| exact Hread].
  rewrite <- Hread.
  match goal with
  | |- calls _ (trace (snd (?m s1))) = _ =>
      destruct (m s1) as [r' s2] eqn:Hrest;
      apply (run_reads_same m s1 r' s2); [| exact Hrest]
  end.
  sat_auto. apply upload_file_sat; reflexivity.
Qed.

(** A loop that ran to its end read one frame for each index. *)
Lemma capture_frames_all_reads indices photos st l st' :
  capture_frames env indices photos st = (Ok l, st') ->
  calls "cap.read" (trace st')
  = (calls "cap.read" (trace st) + length indices)%nat.
Proof.
  revert photos st. induction indices as [| i rest IH]; intros photos st H;
    cbn [capture_frames] in H.
  - injection H as _ <-. simpl. lia.
  - apply bind_inv in H as (photos' & s1 & Hone & H).
    pose proof (capture_frame_one_read i photos st) as Hread.
    rewrite Hone in Hread. cbn [snd] in Hread.
    apply IH in H. rewrite H, Hread. simpl. lia.
Qed.

(** C7. When the [count] argument converts to an integer above 5, the
    count [cmd_photo] loops over is 5: the handler runs exactly as it does
    for [count = 5], its loop going through the indices 0 to 4.  It reads
    at most 5 frames from the webcam whatever happens, and exactly 5 when
    it reports success. *)
Theorem photo_count_clamped_to_5 (d : dict) (v : pyval) (n : Z) (st : State) :
  dict_get d "count" = Some v ->
  fst (py_int env v st) = Ok n ->
  5 < n ->
  photo_count env (PDict d) st = (Ok 5, st) /\
  cmd_photo env (PDict d) st = cmd_photo env (PDict [("count", PInt 5)]) st /\
  (calls "cap.read" (trace (snd (cmd_photo env (PDict d) st)))
   <= calls "cap.read" (trace st) + 5)%nat /\
  (forall result st',
     cmd_photo env (PDict d) st = (Ok (PDict result), st') ->
     dict_get result "success" = Some (PBool true) ->
     calls "cap.read" (trace st') = (calls "cap.read" (trace st) + 5)%nat).
Proof.
  intros Hd Hn Hgt.
  assert (Hcount : photo_count env (PDict d) st = (Ok 5, st)).
  { unfold photo_count, bind, py_get, ret. rewrite Hd. simpl.
    destruct v; simpl in *; try discriminate.
    - destruct b; injection Hn as <-; lia.
    - injection Hn as <-. f_equal. f_equal. lia.
    - injection Hn as <-. f_equal. f_equal. lia.
    - destruct (int_of_str env s); simpl in *; [| discriminate].
      injection Hn as <-. f_equal. f_equal. lia. }
  split; [exact Hcount |].
  split; [| split; [apply cmd_photo_reads_at_most_5 |]].
  - unfold cmd_photo, try_except.
    rewrite (bind_ok (photo_count env (PDict d)) _ st 5 st Hcount).
    rewrite (bind_ok (photo_count env (PDict [("count", PInt 5)])) _ st 5 st
               eq_refl).
    reflexivity.
  - intros result st' H Hs. unfold cmd_photo, try_except in H.
    match type of H with
    | (let (_, _) := ?b st in _) = _ =>
        destruct (b st) as [[r | [msg |]] s1] eqn:Hb
    end; try discriminate.
    2:{ injection H as <- _. cbn in Hs. discriminate. }
    injection H as -> ->.
    apply bind_inv in Hb as (c & s0 & Hc & Hb).
    rewrite Hcount in Hc. injection Hc as <- <-.
    apply bind_inv in Hb as (cap & s2 & Hcap & Hb).
    apply bind_inv in Hb as (opened & s3 & Hopen & Hb).
    destruct (negb (truthy opened)).
    { injection Hb as <- _. cbn in Hs. discriminate. }
    apply bind_inv in Hb as (u & s4 & Hsleep & Hb).
    apply bind_inv in Hb as (photos & s5 & Hloop & Hb).
    apply bind_inv in Hb as (u' & s6 & Hrel & Hb).
    injection Hb as _ <-.
    apply run_reads_same in Hcap; [| sat_auto].
    apply run_reads_same in Hopen; [| sat_auto].
    apply run_reads_same in Hsleep; [| sat_auto].
    apply run_reads_same in Hrel; [| sat_auto].
    apply capture_frames_all_reads in Hloop.
    change (length (range 5)) with 5%nat in Hloop.
    lia.
Qed.

End Photo.

(** A webcam that opens and delivers a frame at every read. *)
Definition working_camera (tr : list Call) (c : Call) : pyval + string :=
  if String.eqb (callee c) "cap.isOpened" then inl (PBool true)
  else if String.eqb (callee c) "cap.read" then inl (PList [PBool true; PStr "frame"])
  else inl (PStr "ok").

(** The scenario of the specification: [count = 10] makes 5 captures. *)
Example photo_count_10_captures_5 :
  calls "cap.read"
    (trace (snd (cmd_photo (example_env working_camera true)
                   (PDict [("count", PInt 10)]) (initial_state [])))) = 5%nat.
Proof. vm_compute. reflexivity. Qed.

(** With a webcam that works, [count = "10"] makes 5 reads. *)
Lemma photo_count_clamped_to_5_witness :
  calls "cap.read"
    (trace (snd (cmd_photo (example_env working_camera true)
                   (PDict [("count", PStr "10")]) (initial_state []))))
  = 5%nat.
Proof.
  destruct (cmd_photo (example_env working_camera true)
              (PDict [("count", PStr "10")]) (initial_state []))
    as [r st'] eqn:Hrun.
  pose proof (proj2 (proj2 (proj2
    (photo_count_clamped_to_5 (example_env working_camera true)
       [("count", PStr "10")] (PStr "10") 10 (initial_state [])
       eq_refl eq_refl eq_refl)))) as Hfive.
  rewrite Hrun in Hfive.
  assert (Hr : exists result,
             r = Ok (PDict result) /\
             dict_get result "success" = Some (PBool true)).
  { assert (E : r = fst (cmd_photo (example_env working_camera true)
                           (PDict [("count", PStr "10")]) (initial_state [])))
      by (rewrite Hrun; reflexivity).
    rewrite E. vm_compute. eexists. split; reflexivity. }
  destruct Hr as (result & -> & Hs).
  exact (Hfive result st' eq_refl Hs).
Defined.

(** * The background loops and their slots *)

Section Tasks.

Variable env : Env.

(** The assignment that follows the loop, as a function of the state. *)
Definition clear_slot (k : kind) (st : State) : State :=
  set_running_commands (<[slot k := false]> (running_commands st)) st.

Lemma task_step_at_exit t st :
  task_pc t = AtExit ->
  task_step env t st = (Ok (with_pc Done t), clear_slot (task_kind t) st).
Proof. intros Hpc. unfold task_step. rewrite Hpc. reflexivity. Qed.

Lemma task_step_cancelled t st :
  task_pc t = AtCheck ->
  slot_active (running_commands st) (slot (task_kind t)) = false ->
  task_step env t st = (Ok (with_pc AtExit t), st).
Proof.
  intros Hpc Hslot. unfold task_step. rewrite Hpc.
  unfold bind, gets. rewrite Hslot. reflexivity.
Qed.

Lemma task_step_elapsed t st now st' :
  task_pc t = AtTest ->
  time_time env st = (Ok now, st') ->
  Qltb (now - task_start t) (inject_Z (task_duration t)) = false ->
  task_step env t st = (Ok (with_pc AtExit t), st').
Proof.
  intros Hpc Hnow Hlt. unfold task_step. rewrite Hpc.
  unfold bind. rewrite Hnow, Hlt. reflexivity.
Qed.

(** The thread function returns only through the assignment after the
    loop. *)
Lemma task_step_done_only_from_exit t st t' st' :
  task_step env t st = (Ok t', st') -> task_pc t' = Done ->
  task_pc t = AtExit \/ task_pc t = Done.
Proof.
  unfold task_step. destruct (task_pc t) eqn:Hpc; auto; intros Hrun Hdone;
    exfalso.
  - unfold bind in Hrun.
    destruct (ext env "import" [PStr "winsound"] st) as [[v | e] st1];
      [| discriminate].
    destruct (time_time env st1) as [[q | e] st2]; [| discriminate].
    injection Hrun as <- _. discriminate.
  - unfold bind in Hrun.
    destruct (time_time env st) as [[q | e] st1]; [| discriminate].
    destruct (Qltb _ _); injection Hrun as <- _; discriminate.
  - unfold bind, gets in Hrun.
    destruct (negb _); injection Hrun as <- _; discriminate.
  - destruct (task_kind t); unfold bind at 1 in Hrun.
    + destruct (ext env "winsound.Beep" _ st) as [[v | e] st1]; [| discriminate].
      unfold bind in Hrun.
      destruct (ext env "time.sleep" _ st1) as [[v' | e] st2]; [| discriminate].
      injection Hrun as <- _. discriminate.
    + destruct (ext env "winsound.Beep" _ st) as [[v | e] st1]; [| discriminate].
      unfold bind at 1 in Hrun.
      destruct (ext env "time.sleep" _ st1) as [[v' | e] st2]; [| discriminate].
      unfold bind at 1 in Hrun.
      destruct (time_time env st2) as [[q | e] st3]; [| discriminate].
      unfold bind at 1 in Hrun.
      match type of Hrun with
      | match ?m ?s with _ => _ end = _ =>
          destruct (m s) as [[[] | e] st4]; [| discriminate]
      end.
      injection Hrun as <- _. discriminate.
  - injection Hrun as <- _. rewrite Hpc in Hdone. discriminate.
Qed.

(** C9. A background loop is left when the cancellation is observed or
    when the duration has elapsed, and in both cases control reaches the
    assignment after the loop; that assignment writes [False] to the slot
    of the task whatever the slot holds; and the thread function returns
    in no other way.  So when a newer instance of the same kind has set
    the slot to [True] in the meantime, the step of the stale thread at
    its exit clears that flag. *)
Theorem stale_exit_clears_slot (t : task) (st : State) :
  (task_pc t = AtCheck ->
   slot_active (running_commands st) (slot (task_kind t)) = false ->
   task_step env t st = (Ok (with_pc AtExit t), st)) /\
  (forall now st',
     task_pc t = AtTest ->
     time_time env st = (Ok now, st') ->
     Qltb (now - task_start t) (inject_Z (task_duration t)) = false ->
     task_step env t st = (Ok (with_pc AtExit t), st')) /\
  (task_pc t = AtExit ->
   task_step env t st = (Ok (with_pc Done t), clear_slot (task_kind t) st) /\
   running_commands (clear_slot (task_kind t) st) !! slot (task_kind t)
     = Some false) /\
  (forall t' st',
     task_step env t st = (Ok t', st') -> task_pc t' = Done ->
     task_pc t = AtExit \/ task_pc t = Done) /\
  (forall i,
     threads st !! i = Some t -> task_pc t = AtExit ->
     running_commands st !! slot (task_kind t) = Some true ->
     running_commands (snd (run_thread env i st)) !! slot (task_kind t)
       = Some false).
Proof.
  split; [apply task_step_cancelled |].
  split; [intros now st'; apply task_step_elapsed |].
  split.
  { intros Hpc. split; [apply task_step_at_exit; exact Hpc |].
    unfold clear_slot. cbn [running_commands set_running_commands].
    apply lookup_insert_eq. }
  split; [apply task_step_done_only_from_exit |].
  intros i Hi Hpc _. unfold run_thread. rewrite Hi.
  rewrite (task_step_at_exit t st Hpc).
  cbn [snd running_commands set_threads clear_slot set_running_commands].
  apply lookup_insert_eq.
Qed.

End Tasks.

(** The interleaving the claim describes: an alarm is started and its
    thread enters the loop; [stop] cancels it and the thread observes the
    cancellation; a second alarm is started, which sets the slot again;
    then the first thread runs its exit and clears the flag of the second,
    whose thread leaves at its next check. *)
Definition steady_clock (tr : list Call) (c : Call) : pyval + string :=
  if String.eqb (callee c) "time.time" then inl (PFloat 0) else inl PNone.

Definition restart_scenario : M unit :=
  let env := example_env steady_clock true in
  cmd_alarm env (PDict []) ;;
  for_each [0; 0; 0]%nat (run_thread env) ;;   (* thread 0 is in its body *)
  cmd_stop env (PDict []) ;;
  for_each [0; 0; 0]%nat (run_thread env) ;;   (* thread 0 is at its exit *)
  cmd_alarm env (PDict []) ;;
  let* rc := gets running_commands in
  (if slot_active rc "alarm" then ret tt else raise (Exception "not set")) ;;
  run_thread env 0%nat ;;                      (* the stale exit *)
  for_each [1; 1; 1; 1]%nat (run_thread env).

Example restart_scenario_clears_new_alarm :
  let r := restart_scenario (initial_state []) in
  fst r = Ok tt /\
  running_commands (snd r) !! "alarm" = Some false /\
  map task_pc (threads (snd r)) = [Done; Done].
Proof. vm_compute. repeat split; reflexivity. Qed.

(** * The start-up sweep *)

(** ** The handlers of the registry always return *)

Definition returns {A} (m : M A) : Prop :=
  forall st, exists a st', m st = (Ok a, st').

Lemma returns_guarded {A} P L (body : M A) (h : string -> A) :
  sat P L false body -> returns (try_except body (fun e => ret (h e))).
Proof.
  intros Hb st. destruct (Hb st) as [_ Hn]. unfold try_except.
  destruct (body st) as [[a | [msg |]] st1]; simpl in *.
  - eauto.
  - unfold ret. eauto.
  - exfalso. apply Hn; reflexivity.
Qed.

Ltac handler_returns :=
  apply (returns_guarded anything anything); sat_auto;
  first [ apply upload_file_sat | apply cmd_location_sat | apply start_task_sat
        | apply photo_count_sat | apply capture_frames_sat
        | apply cmd_status_sat ];
  reflexivity.

Lemma handlers_return env name (h : Handler) args :
  handlers env !! name = Some h -> returns (h args).
Proof.
  intros Hh. unfold handlers in Hh.
  apply elem_of_list_to_map_2 in Hh. unfold handler_table in Hh.
  repeat (apply elem_of_cons in Hh; destruct Hh as [Hh | Hh];
          [injection Hh as _ ->;
           first [ solve [intros st; unfold cmd_stopfind, bind, modify, ret; eauto]
                 | solve [unfold cmd_status; handler_returns]
                 | solve [unfold cmd_screenshot; handler_returns]
                 | solve [unfold cmd_photo; handler_returns]
                 | solve [unfold cmd_location; handler_returns]
                 | solve [unfold cmd_battery; handler_returns]
                 | solve [unfold cmd_wifiinfo; handler_returns]
                 | solve [unfold cmd_sysinfo; handler_returns]
                 | solve [unfold cmd_audio; handler_returns]
                 | solve [unfold cmd_alarm; handler_returns]
                 | solve [unfold cmd_findme; handler_returns]
                 | solve [unfold cmd_stop, stop_slot; handler_returns]
                 | solve [unfold cmd_listnetworks; handler_returns]
                 | solve [unfold cmd_processes, cmd_appusage; handler_returns]
                 | solve [unfold cmd_lockscreen; handler_returns]
                 | solve [unfold cmd_shutdown; handler_returns]
                 | solve [unfold cmd_restart; handler_returns] ] |]).
  inversion Hh.
Qed.

(** ** Records with and without a command name *)

(** Whether the [command] column of a row holds a string. *)
Definition named (r : Row) : bool := isinstance_str (row_command r).

Definition update_succeeds (env : Env) : Prop :=
  forall tr args, exists v,
    answer env tr (mkCall "commands.update.execute" args) = inl v.

Lemma evolves_origin t t' row' :
  evolves t t' -> row' ∈ t' -> exists row, row ∈ t /\ row_evolves row row'.
Proof.
  intros H. induction H as [| r r' t t' Hr _ IH]; intros Hin.
  - inversion Hin.
  - apply elem_of_cons in Hin as [-> | Hin].
    + exists r. split; [left | exact Hr].
    + destruct (IH Hin) as (row & Hrow & He). exists row. split; [right | ]; auto.
Qed.

(** Once every row with identifier [x] is completed, it stays so. *)
Lemma completed_persists t t' x :
  evolves t t' ->
  (forall row, row ∈ t -> row_id row = x -> row_status row = "completed") ->
  (forall row, row ∈ t' -> row_id row = x -> row_status row = "completed").
Proof.
  intros He H row' Hin Hid.
  destruct (evolves_origin t t' row' He Hin) as (row & Hrow & Hi & _ & _ & Hs).
  destruct Hs as [Hs | Hs]; [| exact Hs].
  rewrite Hs. apply H; [exact Hrow | congruence].
Qed.

Lemma apply_completion_completes x result now t row :
  row ∈ apply_completion (PStr x) result now t -> row_id row = x ->
  row_status row = "completed".
Proof.
  unfold apply_completion. intros Hin Hid.
  apply list_elem_of_fmap in Hin as (r & -> & _).
  unfold id_matches in *. destruct (String.eqb x (row_id r)) eqn:E.
  - reflexivity.
  - apply String.eqb_neq in E. congruence.
Qed.

Section Sweep.

Variable env : Env.

(** A record whose command is not a string is given up before any
    handler is looked up: the AttributeError is logged, and that is all. *)
Lemma process_unnamed hs r st :
  named r = false ->
  exists msg,
    process_command env hs (record_of_row r) st
      = (Ok tt, add_log (processing_error msg) st).
Proof.
  unfold named. intros Hn.
  unfold process_command, process_command_body, try_except, getitem, bind.
  cbn [record_of_row dict_get String.eqb Ascii.eqb Bool.eqb andb ret].
  unfold py_lower, attribute_error, raise.
  destruct (row_command r); try discriminate; eexists; reflexivity.
Qed.

(** After the handler has returned, what is left of [process_command]
    is the completion write and log records. *)
Lemma guarded_report_state cmd_id cmd_name run st result st1 :
  run (add_log (processing cmd_name) st) = (Ok result, st1) ->
  exists l,
    guarded_report env cmd_id cmd_name run st =
      (Ok tt, set_log l (snd (update_command_result env cmd_id result st1))).
Proof.
  intros Hrun. unfold guarded_report, try_except, report, bind, logger_info,
    logger_error, logger, modify. simpl.
  unfold processing, add_log in Hrun. rewrite Hrun.
  pose proof (update_returns env cmd_id result st1) as Hu.
  destruct (update_command_result env cmd_id result st1) as [[[] | e] st2];
    simpl in *; [| discriminate].
  unfold py_get, attribute_error, raise, ret.
  destruct result; eexists; reflexivity.
Qed.

(** The loop over the selected records returns normally. *)
Lemma for_each_process_returns (data : list dict) st :
  fst (for_each data (process_command env (handlers env)) st) = Ok tt.
Proof.
  revert st. induction data as [| c data IH]; intros st; cbn [for_each].
  - reflexivity.
  - unfold bind. destruct (process_command_total env c st) as [st1 H1].
    rewrite H1. apply IH.
Qed.

Hypothesis writes_ok : update_succeeds env.

Lemma update_table cmd_id result st :
  commands_table (snd (update_command_result env cmd_id result st)) =
  apply_completion cmd_id (PStr (json_dumps env result))
    (PStr (utcnow env (trace st))) (commands_table st).
Proof.
  rewrite update_command_result_run. cbv zeta.
  destruct (writes_ok (trace st)
              [completion_payload (PStr (json_dumps env result))
                 (PStr (utcnow env (trace st))); cmd_id]) as [v Hv].
  unfold completion_call. rewrite Hv. reflexivity.
Qed.

(** A record with a command name is completed, together with every row
    that shares its identifier. *)
Lemma process_named r st :
  named r = true ->
  forall row,
    row ∈ commands_table (snd (process_command env (handlers env)
                                 (record_of_row r) st)) ->
    row_id row = row_id r -> row_status row = "completed".
Proof.
  unfold named. intros Hn row.
  destruct (row_command r) as [| | | | | name | |] eqn:Hc; try discriminate.
  rewrite (process_command_run env (handlers env) (record_of_row r)
             (PStr (row_id r)) name st)
    by (cbn [record_of_row dict_get String.eqb Ascii.eqb Bool.eqb andb];
        congruence).
  match goal with
  | |- context [report env _ _ ?run] => assert (Hret : returns run)
  end.
  { destruct (handlers env !! str_lower env name) as [h |] eqn:Hh.
    - eapply handlers_return; exact Hh.
    - intros s. unfold ret. eauto. }
  destruct (Hret (add_log (processing (str_lower env name)) st)) as (result & st1 & Hrun).
  destruct (guarded_report_state (PStr (row_id r)) (str_lower env name) _ st result st1 Hrun)
    as [l Hl].
  unfold guarded_report in Hl.
  rewrite Hl. cbn [snd commands_table set_log]. rewrite update_table.
  apply apply_completion_completes.
Qed.

Lemma process_command_grows command st :
  grows anything anything st
    (snd (process_command env (handlers env) command st)).
Proof.
  assert (H : sat anything anything false
                (process_command env (handlers env) command)).
  { apply process_command_sat; try reflexivity.
    intros name h args Hh. eapply handlers_sat; eauto. }
  apply H.
Qed.

(** The loop of the sweep over the selected rows. *)
Lemma sweep_loop rows st :
  let r := for_each (map record_of_row rows)
             (process_command env (handlers env)) st in
  fst r = Ok tt /\
  grows anything anything st (snd r) /\
  (forall x, x ∈ rows -> named x = true ->
     forall row, row ∈ commands_table (snd r) -> row_id row = row_id x ->
                 row_status row = "completed").
Proof.
  revert st. induction rows as [| x rows IH]; intros st; cbn [map for_each].
  - cbv zeta. split; [reflexivity |]. split; [apply grows_refl |].
    intros x Hx. inversion Hx.
  - cbv zeta. unfold bind.
    destruct (process_command_total env (record_of_row x) st) as [st1 H1].
    pose proof (process_command_grows (record_of_row x) st) as Hg1.
    pose proof (process_named x st) as Hc1.
    rewrite H1 in *. cbn [snd] in *.
    destruct (IH st1) as (Hok & Hg & Hc).
    split; [exact Hok |]. split; [eapply grows_trans; eassumption |].
    intros y Hy Hn row Hrow Hid.
    apply elem_of_cons in Hy as [-> | Hy].
    + eapply completed_persists; [apply (grows_table _ _ _ _ Hg) | | exact Hrow | exact Hid].
      intros row0 Hrow0 Hid0. apply Hc1; assumption.
    + eapply Hc; eassumption.
Qed.

End Sweep.

(** ** The sweep as a whole *)

Definition select_call (st : State) : Call :=
  mkCall "commands.select.execute" [device_arg (device_id st); PStr "pending"].

(** The rows the query of the sweep returns. *)
Definition pending_rows (st : State) : list Row :=
  filter (fun r => is_pending_for (device_id st) r = true) (commands_table st).

(** What [listen] does before the sweep. *)
Definition prelude (st : State) : State :=
  set_running true
    (add_log (mkLog INFO "Device ID: {}" [device_arg (device_id st)])
       (add_log (mkLog INFO "Starting command listener..." []) st)).

(** What [listen] does after the sweep: it starts the heartbeat thread and
    selects the transport. *)
Definition select_transport (env : Env) (hs : gmap string Handler) (fuel : nat)
    : M unit :=
  ext env "threading.Thread.start" [PStr "heartbeat_loop"] ;;
  logger_info "Heartbeat thread started" [] ;;
  if REALTIME_AVAILABLE env then run_realtime env hs fuel
  else
    logger_info "Realtime not available, using polling mode" [] ;;
    listen_polling env hs fuel.

Lemma completions_app tr tr' :
  completions (tr ++ tr') = (completions tr ++ completions tr')%list.
Proof. apply List.filter_app. Qed.

Section SweepClaims.

Variable env : Env.

Let sweep := process_pending_commands env (handlers env).

Lemma sweep_unnamed rows st :
  Forall (fun r => named r = false) rows ->
  exists st',
    for_each (map record_of_row rows) (process_command env (handlers env)) st
      = (Ok tt, st') /\ trace st' = trace st.
Proof.
  intros H. revert st. induction H as [| r rows Hr _ IH]; intros st;
    cbn [map for_each].
  - eexists. split; reflexivity.
  - destruct (process_unnamed env (handlers env) r st Hr) as [msg Hrun].
    unfold bind. rewrite Hrun.
    destruct (IH (add_log (processing_error msg) st)) as (st' & Hrun' & Ht).
    exists st'. split; [exact Hrun' | exact Ht].
Qed.

(** The state in which the loop of the sweep ends, when the query
    succeeded. *)
Definition after_loop (st : State) : State :=
  snd (for_each (map record_of_row (pending_rows st))
         (process_command env (handlers env)) (add_call (select_call st) st)).

Lemma sweep_run st :
  sweep st =
    match answer env (trace st) (select_call st) with
    | inr msg =>
        (Ok tt, add_log (mkLog ERROR "Error processing pending commands: {}"
                           [PStr msg])
                  (add_call (select_call st) st))
    | inl _ =>
        (Ok tt,
         match pending_rows st with
         | [] => after_loop st
         | _ => add_log (mkLog INFO "Processed {} pending commands"
                           [PInt (Z.of_nat (length (map record_of_row
                                                      (pending_rows st))))])
                  (after_loop st)
         end)
    end.
Proof.
  unfold sweep, process_pending_commands, try_except, select_pending.
  unfold bind at 1. unfold bind at 1. unfold gets at 1. unfold bind at 1.
  unfold ext. fold (select_call st).
  destruct (answer env (trace st) (select_call st)) as [v | msg].
  2:{ reflexivity. }
  unfold bind at 1. unfold gets at 1. unfold ret at 1. unfold bind at 1.
  cbn [commands_table set_trace device_id].
  fold (pending_rows st). fold (add_call (select_call st) st).
  pose proof (for_each_process_returns env (map record_of_row (pending_rows st))
                (add_call (select_call st) st)) as Hok.
  unfold after_loop.
  destruct (for_each _ _ (add_call (select_call st) st)) as [[[] | e] st1];
    simpl in Hok; [| discriminate].
  destruct (pending_rows st); reflexivity.
Qed.

Lemma sweep_returns st : exists st', sweep st = (Ok tt, st').
Proof.
  rewrite sweep_run. destruct (answer env (trace st) (select_call st)); eauto.
Qed.

Lemma completions_select tr st :
  completions (tr ++ [select_call st]) = completions tr.
Proof. rewrite completions_app. simpl. apply app_nil_r. Qed.

(** A sweep over a table whose pending rows have no command name writes
    no completion. *)
Lemma sweep_of_unnamed st :
  Forall (fun r => named r = false) (pending_rows st) ->
  completions (trace (snd (sweep st))) = completions (trace st).
Proof.
  intros H. rewrite sweep_run.
  destruct (answer env (trace st) (select_call st)) as [v | msg].
  - destruct (sweep_unnamed (pending_rows st) (add_call (select_call st) st) H)
      as (st' & Hrun & Ht).
    assert (Ha : trace (after_loop st) = (trace st ++ [select_call st])%list).
    { unfold after_loop. rewrite Hrun. exact Ht. }
    destruct (pending_rows st); cbn [snd add_log set_log trace];
      rewrite Ha; apply completions_select.
  - cbn [snd add_log set_log trace add_call set_trace].
    apply completions_select.
Qed.

Hypothesis writes_ok : update_succeeds env.

(** After a sweep whose query and writes succeeded, the rows still
    pending are those without a command name. *)
Lemma pending_after_sweep st v :
  answer env (trace st) (select_call st) = inl v ->
  Forall (fun r => named r = false) (pending_rows (snd (sweep st))).
Proof.
  intros Hsel.
  destruct (sweep_loop env writes_ok (pending_rows st)
              (add_call (select_call st) st)) as (_ & Hg & Hc).
  cbv zeta in Hg, Hc. fold (after_loop st) in Hg, Hc.
  assert (Htable : commands_table (snd (sweep st)) = commands_table (after_loop st)).
  { rewrite sweep_run, Hsel. destruct (pending_rows st); reflexivity. }
  assert (Hdev : device_id (snd (sweep st)) = device_id st).
  { rewrite sweep_run, Hsel.
    destruct (pending_rows st); cbn [snd add_log set_log device_id];
      apply (grows_device _ _ _ _ Hg). }
  apply Forall_forall. intros row' Hin.
  unfold pending_rows in Hin. rewrite Htable, Hdev in Hin.
  apply list_elem_of_filter in Hin as [Hpend Hin].
  destruct (evolves_origin _ _ row' (grows_table _ _ _ _ Hg) Hin)
    as (row & Hrow & Hi & Hd & Hcmd & Hs).
  cbn [add_call set_trace commands_table] in Hrow.
  unfold is_pending_for in Hpend.
  destruct (device_id st) as [dev |] eqn:Hdv; [| discriminate].
  apply andb_true_iff in Hpend as [Hpd Hps].
  apply String.eqb_eq in Hps.
  destruct (named row') eqn:Hn; [exfalso | reflexivity].
  assert (Hrow_pending : row ∈ pending_rows st).
  { unfold pending_rows. apply list_elem_of_filter. split; [| exact Hrow].
    unfold is_pending_for. rewrite Hdv, <- Hd, Hpd. simpl.
    destruct Hs as [Hs | Hs].
    - rewrite <- Hs, <- Hps. reflexivity.
    - rewrite Hs in Hps. discriminate. }
  assert (Hnamed : named row = true).
  { unfold named in *. rewrite <- Hcmd. exact Hn. }
  specialize (Hc row Hrow_pending Hnamed row' Hin Hi).
  rewrite Hc in Hps. discriminate.
Qed.

(** The sweep is idempotent: a second sweep right after one whose query
    and writes succeeded writes no completion. *)
Lemma sweep_idempotent st v :
  answer env (trace st) (select_call st) = inl v ->
  completions (trace (snd (sweep (snd (sweep st)))))
    = completions (trace (snd (sweep st))).
Proof.
  intros Hsel. apply sweep_of_unnamed. eapply pending_after_sweep; eassumption.
Qed.

End SweepClaims.

(** * The transports *)

(** ** What the sweep, the poller and the push subscriber may do *)

(** The collaborators of the sweep and of the poller. *)
Definition poll_calls : list string :=
  "commands.update.execute" :: "commands.select.execute" :: handler_calls.

(** The collaborators only the push subscriber calls. *)
Definition push_calls : list string :=
  ["create_async_client"; "realtime_client.channel";
   "channel.on_postgres_changes"; "channel.subscribe"; "asyncio.sleep"].

(** The texts logged while commands are processed, by either transport. *)
Definition processing_fmts : list string :=
  "Failed to update command result: {}" :: "Processing command: {}" ::
  "Command {} completed: {}" :: "Error processing command: {}" ::
  "Processed {} pending commands" :: "Error processing pending commands: {}" ::
  "Listen loop error: {}" :: "Using polling mode (fallback)..." ::
  "Realtime event: {}" :: "New command received: {}" ::
  "Error handling realtime event: {}" :: banner ::
  "REALTIME MODE - Commands execute INSTANTLY!" :: handler_fmts.

Lemma mem_forallb (P : string -> bool) l :
  forallb P l = true -> forall n, mem n l = true -> P n = true.
Proof.
  intros H n Hn. unfold mem in Hn. apply existsb_exists in Hn as (x & Hx & E).
  apply String.eqb_eq in E. subst x.
  rewrite forallb_forall in H. apply H. exact Hx.
Qed.

Section TransportFrame.

Variable env : Env.
Variables P L : string -> bool.

Hypothesis HP : forall n, mem n poll_calls = true -> P n = true.
Hypothesis HL : forall n, mem n processing_fmts = true -> L n = true.

Let hs := handlers env.

Lemma handlers_sat' ki name (h : Handler) args :
  hs !! name = Some h -> sat P L ki (h args).
Proof.
  intros Hh. eapply handlers_sat; [| | exact Hh].
  - intros n Hn. apply HP. unfold poll_calls, mem in *. cbn [existsb].
    rewrite Hn. rewrite !orb_true_r. reflexivity.
  - intros n Hn. apply HL. unfold processing_fmts, mem in *.
    cbn [existsb]. rewrite Hn. rewrite !orb_true_r. reflexivity.
Qed.

Lemma process_command_sat' ki command :
  sat P L ki (process_command env hs command).
Proof.
  apply process_command_sat; try allowed.
  intros name h args Hh. eapply handlers_sat'; exact Hh.
Qed.

Lemma select_pending_sat ki : sat P L ki (select_pending env).
Proof. unfold select_pending. sat_auto. Qed.

Lemma process_pending_commands_sat ki :
  sat P L ki (process_pending_commands env hs).
Proof.
  unfold process_pending_commands. sat_auto.
  - apply select_pending_sat.
  - apply sat_for_each. intros c. apply process_command_sat'.
Qed.

Lemma update_heartbeat_sat ki : sat P L ki (update_heartbeat env).
Proof. unfold update_heartbeat. sat_auto. Qed.

Lemma sleep_main_sat f seconds :
  P f = true -> sat P L true (sleep_main env f seconds).
Proof.
  intros Hf. unfold sleep_main. sat_auto. apply sat_interrupt.
Qed.

Lemma polling_loop_sat fuel : sat P L true (polling_loop env hs fuel).
Proof.
  induction fuel as [| n IH]; cbn [polling_loop].
  - apply sat_ret.
  - sat_auto.
    + apply select_pending_sat.
    + apply sat_for_each. intros c. apply process_command_sat'.
    + apply update_heartbeat_sat.
    + apply sleep_main_sat. allowed.
    + exact IH.
Qed.

Lemma listen_polling_sat fuel : sat P L true (listen_polling env hs fuel).
Proof.
  unfold listen_polling. sat_auto. apply polling_loop_sat.
Qed.

Hypothesis HPpush : forall n, mem n push_calls = true -> P n = true.

Lemma on_command_received_sat ki payload :
  sat P L ki (on_command_received env hs payload).
Proof.
  unfold on_command_received. sat_auto; apply process_command_sat'.
Qed.

Lemma keep_alive_sat fuel : sat P L true (keep_alive env hs fuel).
Proof.
  induction fuel as [| n IH]; cbn [keep_alive].
  - apply sat_ret.
  - sat_auto.
    + apply sleep_main_sat. allowed.
    + apply sat_for_each. intros c. apply on_command_received_sat.
    + exact IH.
Qed.

Lemma listen_realtime_sat fuel : sat P L true (listen_realtime env hs fuel).
Proof.
  unfold listen_realtime. sat_auto. apply keep_alive_sat.
Qed.

End TransportFrame.

(** ** [listen]: one sweep, then the transport *)

Section Listen.

Variable env : Env.

Let hs := handlers env.
Let sweep := process_pending_commands env hs.

Lemma configured_truthy d : d <> "" -> truthy (device_arg (Some d)) = true.
Proof.
  intros Hd. simpl. destruct (String.eqb_spec d ""); [contradiction | reflexivity].
Qed.

(** With a device configured, [listen] is the sweep, run once from the
    state [prelude] leaves, followed by the selection of the transport. *)
Lemma listen_run fuel st d :
  device_id st = Some d -> d <> "" ->
  listen env hs fuel st = select_transport env hs fuel (snd (sweep (prelude st))).
Proof.
  intros Hd Hne.
  destruct (sweep_returns env (prelude st)) as [st1 Hsweep].
  fold hs in Hsweep. fold sweep in Hsweep. rewrite Hsweep. cbn [snd].
  assert (Ht : truthy (device_arg (device_id st)) = true)
    by (rewrite Hd; apply configured_truthy; exact Hne).
  unfold listen.
  erewrite bind_ok by reflexivity.
  erewrite bind_ok by reflexivity.
  cbn [device_id set_log]. rewrite Ht. cbn [negb].
  erewrite bind_ok by reflexivity.
  erewrite bind_ok by reflexivity.
  erewrite bind_ok by exact Hsweep.
  reflexivity.
Qed.

(** The sweep begins with its query. *)
Lemma sweep_trace st :
  exists dt, trace (snd (sweep st)) = (trace st ++ select_call st :: dt)%list.
Proof.
  unfold sweep, hs. rewrite sweep_run.
  destruct (answer env (trace st) (select_call st)) as [v | msg].
  - assert (Hg : grows anything anything (add_call (select_call st) st)
                   (after_loop env st)).
    { unfold after_loop.
      apply (sat_for_each anything anything false). intros c st0.
      split; [apply process_command_grows |].
      destruct (process_command_total env c st0) as [st' ->]. discriminate. }
    destruct (grows_trace _ _ _ _ Hg) as (dt & Ht & _).
    exists dt. destruct (pending_rows st); cbn [snd add_log set_log trace];
      rewrite Ht; cbn [add_call set_trace trace]; rewrite <- app_assoc;
      reflexivity.
  - exists []. reflexivity.
Qed.

(** C6, as the code has it.  With a device configured, [listen] performs
    the sweep exactly once: the query of the sweep is its first external
    call, and what follows the sweep is the start of the heartbeat thread
    and the selection of the transport.  And a second sweep, run right
    after a sweep whose query succeeded, writes no completion, provided
    the completion writes succeed. *)
Theorem startup_sweep_once_and_idempotent (fuel : nat) (st : State) (d : string) :
  device_id st = Some d -> d <> "" ->
  update_succeeds env ->
  (exists st1 dt,
     sweep (prelude st) = (Ok tt, st1) /\
     trace st1 = (trace st ++ select_call st :: dt)%list /\
     listen env hs fuel st = select_transport env hs fuel st1) /\
  (forall s v,
     answer env (trace s) (select_call s) = inl v ->
     completions (trace (snd (sweep (snd (sweep s)))))
       = completions (trace (snd (sweep s)))).
Proof.
  intros Hd Hne Hw. split.
  - destruct (sweep_returns env (prelude st)) as [st1 Hsweep].
    destruct (sweep_trace (prelude st)) as [dt Ht].
    exists st1, dt. split; [exact Hsweep |]. split.
    + unfold sweep, hs in Ht. rewrite Hsweep in Ht. exact Ht.
    + rewrite (listen_run fuel st d Hd Hne). unfold sweep, hs.
      rewrite Hsweep. reflexivity.
  - intros s v Hsel. eapply sweep_idempotent; eassumption.
Qed.

End Listen.

(** A store whose first query fails and which accepts everything else. *)
Definition first_query_fails (tr : list Call) (c : Call) : pyval + string :=
  if String.eqb (callee c) "commands.select.execute" && (length tr =? 0)%nat
  then inr "timeout" else inl PNone.

Definition one_pending : list Row :=
  [mkRow "c-1" "device-1" (PStr "stopfind") (PDict []) "pending"
         PNone PNone PNone].

(** C6, as the specification states it, fails: when the query of the
    first sweep fails, that sweep completes nothing, and the second sweep
    completes the pending command although no command was created in
    between and every completion write succeeds. *)
Lemma second_sweep_completes_after_failed_query :
  let env := example_env first_query_fails true in
  let st1 := snd (process_pending_commands env (handlers env)
                    (initial_state one_pending)) in
  let st2 := snd (process_pending_commands env (handlers env) st1) in
  update_succeeds env /\
  completions (trace st1) = [] /\
  length (completions (trace st2)) = 1%nat.
Proof.
  cbv zeta. split; [| split].
  - intros tr args. exists PNone. reflexivity.
  - vm_compute. reflexivity.
  - vm_compute. reflexivity.
Qed.

Lemma startup_sweep_once_and_idempotent_witness :
  completions (trace (snd (process_pending_commands quiet_env (handlers quiet_env)
     (snd (process_pending_commands quiet_env (handlers quiet_env)
             (initial_state one_pending))))))
  = completions (trace (snd (process_pending_commands quiet_env
                               (handlers quiet_env)
                               (initial_state one_pending)))).
Proof.
  refine (proj2 (startup_sweep_once_and_idempotent quiet_env 0
                   (initial_state one_pending) "device-1" eq_refl _ _)
                (initial_state one_pending) PNone eq_refl).
  - discriminate.
  - intros tr args. exists PNone. reflexivity.
Defined.

(** ** From push to polling, and never back *)

Definition not_push (n : string) : bool := negb (mem n push_calls).

Definition fallback_fmt : string := "Falling back to polling mode...".

Definition not_fallback (f : string) : bool := negb (String.eqb f fallback_fmt).

(** How many records of a log carry the text [f]. *)
Definition logged (f : string) (l : list LogRecord) : nat :=
  length (List.filter (fun r => String.eqb (log_fmt r) f) l).

Definition heartbeat_start : Call :=
  mkCall "threading.Thread.start" [PStr "heartbeat_loop"].

Definition create_client : Call :=
  mkCall "create_async_client" [PStr SUPABASE_URL; PStr SUPABASE_ANON_KEY].

Lemma logged_app f l l' : logged f (l ++ l') = (logged f l + logged f l')%nat.
Proof. unfold logged. rewrite List.filter_app, length_app. reflexivity. Qed.

Lemma logged_none (L : string -> bool) f dl :
  L f = false -> forallb (fun r => L (log_fmt r)) dl = true -> logged f dl = 0%nat.
Proof.
  intros Hf. unfold logged. induction dl as [| r dl IH]; simpl; [reflexivity |].
  intros H. apply andb_true_iff in H as [Hr Hdl].
  destruct (String.eqb (log_fmt r) f) eqn:E.
  - apply String.eqb_eq in E. congruence.
  - auto.
Qed.

Lemma ext_ok env f args st v :
  answer env (trace st) (mkCall f args) = inl v ->
  ext env f args st = (Ok v, add_call (mkCall f args) st).
Proof. intros H. unfold ext. rewrite H. reflexivity. Qed.

Section Fallback.

Variable env : Env.

Let hs := handlers env.
Let sweep := process_pending_commands env hs.

Variables P L : string -> bool.

Lemma grows_add_log lv fmt args st :
  L fmt = true -> grows P L st (add_log (mkLog lv fmt args) st).
Proof.
  intros HL. split; cbn [add_log set_log trace log commands_table device_id].
  - exists []. rewrite app_nil_r. auto.
  - exists [mkLog lv fmt args]. simpl. rewrite HL. auto.
  - apply evolves_refl.
  - reflexivity.
Qed.

Lemma grows_add_call c st :
  P (callee c) = true -> grows P L st (add_call c st).
Proof.
  intros HP. split; cbn [add_call set_trace trace log commands_table device_id].
  - exists [c]. simpl. rewrite HP. auto.
  - exists []. rewrite app_nil_r. auto.
  - apply evolves_refl.
  - reflexivity.
Qed.

Hypothesis HP : forall n, mem n poll_calls = true -> P n = true.
Hypothesis HL : forall n, mem n processing_fmts = true -> L n = true.

(** The block that [listen] runs when the push transport has failed. *)
Definition fall_back (fuel : nat) (e : string) : M unit :=
  logger_error "Realtime failed: {}" [PStr e] ;;
  logger_info fallback_fmt [] ;;
  listen_polling env hs fuel.

Lemma fall_back_grows fuel e st :
  grows P L (add_log (mkLog INFO fallback_fmt [])
               (add_log (mkLog ERROR "Realtime failed: {}" [PStr e]) st))
        (snd (fall_back fuel e st)).
Proof.
  unfold fall_back. erewrite bind_ok by reflexivity.
  erewrite bind_ok by reflexivity.
  apply (listen_polling_sat env P L HP HL).
Qed.

Hypothesis HLstart : L "Starting command listener..." = true.
Hypothesis HLdevice : L "Device ID: {}" = true.
Hypothesis HLheartbeat : L "Heartbeat thread started" = true.
Hypothesis HPthread : P "threading.Thread.start" = true.

(** From the call of [listen] to the selection of the transport. *)
Lemma startup_grows st :
  grows P L st
    (add_log (mkLog INFO "Heartbeat thread started" [])
       (add_call heartbeat_start (snd (sweep (prelude st))))).
Proof.
  eapply grows_trans; [| apply grows_add_log; exact HLheartbeat].
  eapply grows_trans; [| apply grows_add_call; exact HPthread].
  eapply grows_trans;
    [| apply (process_pending_commands_sat env P L HP HL false)].
  unfold prelude.
  eapply grows_trans; [apply grows_add_log; exact HLstart |].
  eapply grows_trans; [apply grows_add_log; exact HLdevice |].
  apply grows_same; reflexivity.
Qed.

End Fallback.

Section FallbackClaim.

Variable env : Env.

Let hs := handlers env.
Let sweep := process_pending_commands env hs.

Lemma poll_calls_not_push n : mem n poll_calls = true -> not_push n = true.
Proof. apply mem_forallb. reflexivity. Qed.

Lemma processing_fmts_not_fallback n :
  mem n processing_fmts = true -> not_fallback n = true.
Proof. apply mem_forallb. reflexivity. Qed.

Lemma run_realtime_failed fuel s e s3 :
  listen_realtime env hs fuel s = (Raise (Exception e), s3) ->
  run_realtime env hs fuel s = fall_back env fuel e s3.
Proof. intros H. unfold run_realtime. rewrite H. reflexivity. Qed.

(** Whatever happens next, the first thing the [try] statement of [listen]
    does is to create the push client. *)
Lemma run_realtime_trace fuel s :
  exists dt,
    trace (snd (run_realtime env hs fuel s)) = (trace s ++ create_client :: dt)%list.
Proof.
  assert (Hany : forall l n, mem n l = true -> anything n = true) by reflexivity.
  assert (Hfb : forall e s', exists dt,
             trace (snd (fall_back env fuel e s')) = (trace s' ++ dt)%list).
  { intros e s'.
    destruct (grows_trace _ _ _ _
                (fall_back_grows env anything anything (Hany _) (Hany _) fuel e s'))
      as (dt & Ht & _).
    exists dt. exact Ht. }
  unfold run_realtime, listen_realtime. unfold bind at 1. unfold ext at 1.
  fold create_client.
  destruct (answer env (trace s) create_client) as [v | msg].
  - match goal with
    | |- exists dt, trace (snd (match ?T ?s' with _ => _ end)) = _ =>
        assert (HT : sat anything anything true T)
          by (sat_auto; apply keep_alive_sat; apply Hany);
        destruct (HT s') as [Hg _]; destruct (T s') as [[[] | [e |]] s'']
    end;
      destruct (grows_trace _ _ _ _ Hg) as (dt & Ht & _);
      cbn [snd set_trace trace] in Ht.
    + exists dt. cbn [snd]. rewrite Ht, <- app_assoc. reflexivity.
    + destruct (Hfb e s'') as [dt' Ht'].
      exists (dt ++ dt')%list. etransitivity; [exact Ht' |].
      rewrite Ht, <- !app_assoc. reflexivity.
    + exists dt. unfold bind, logger_info, logger, modify.
      cbn [snd set_log set_running trace]. rewrite Ht, <- app_assoc. reflexivity.
  - destruct (Hfb msg (set_trace (trace s ++ [create_client]) s)) as [dt' Ht'].
    exists dt'. etransitivity; [exact Ht' |].
    cbn [set_trace trace]. rewrite <- app_assoc. reflexivity.
Qed.


End FallbackClaim.


(** A push subscription that cannot be established. *)
Definition subscribe_refused (tr : list Call) (c : Call) : pyval + string :=
  if String.eqb (callee c) "channel.subscribe" then inr "connection refused"
  else inl PNone.


(** * Further properties of the listener *)

(** ** Start-up without a device *)

(** X1. Without a device identity ([None] or the empty string), [listen]
    logs the refusal and returns: it makes no external call, runs no sweep,
    starts no thread and leaves [running] as it was. *)
Theorem listen_refuses_without_device
    (env : Env) (hs : gmap string Handler) (fuel : nat) (st : State) :
  device_id st = None \/ device_id st = Some "" ->
  listen env hs fuel st =
    (Ok tt,
     add_log (mkLog ERROR "No device configured. Run installer first." [])
       (add_log (mkLog INFO "Starting command listener..." []) st)).
Proof.
  intros Hd.
  assert (Ht : truthy (device_arg (device_id st)) = false)
    by (destruct Hd as [-> | ->]; reflexivity).
  unfold listen.
  erewrite bind_ok by reflexivity.
  erewrite bind_ok by reflexivity.
  cbn [device_id set_log]. rewrite Ht. reflexivity.
Qed.

Lemma listen_refuses_without_device_witness :
  trace (snd (listen quiet_env (handlers quiet_env) 3
                (mkState None false ∅ [] [] [] one_pending))) = [].
Proof.
  rewrite (listen_refuses_without_device quiet_env (handlers quiet_env) 3
             (mkState None false ∅ [] [] [] one_pending) (or_introl eq_refl)).
  reflexivity.
Defined.

(** ** What [process_command] reads of a record *)

(** X2. [process_command] reads three things of a record: its ['id'], its
    ['command'] as [str.lower()] lowers it, and its ['args'] as normalised
    (a missing ['args'], an empty dictionary and a string that is not JSON
    all count as [{}]).  Two records that agree on these are processed
    identically, whatever their other fields and whatever the case of the
    letters of their names. *)
Theorem dispatch_ignores_letter_case
    (env : Env) (hs : gmap string Handler) (c1 c2 : dict) (cmd_id : pyval)
    (n1 n2 : string) (st : State) :
  dict_get c1 "id" = Some cmd_id -> dict_get c2 "id" = Some cmd_id ->
  dict_get c1 "command" = Some (PStr n1) ->
  dict_get c2 "command" = Some (PStr n2) ->
  str_lower env n1 = str_lower env n2 ->
  normalized env c1 = normalized env c2 ->
  process_command env hs c1 st = process_command env hs c2 st.
Proof.
  intros Hi1 Hi2 Hn1 Hn2 Hl Ha.
  rewrite (process_command_run env hs c1 cmd_id n1 st Hi1 Hn1).
  rewrite (process_command_run env hs c2 cmd_id n2 st Hi2 Hn2).
  rewrite Hl, Ha. reflexivity.
Qed.

Lemma dispatch_ignores_letter_case_witness :
  process_command quiet_env (handlers quiet_env)
    (example_record "STOPFIND" (PStr "{not json")) (initial_state [])
  = process_command quiet_env (handlers quiet_env)
      [("command", PStr "stopFind"); ("id", PStr "c-1")] (initial_state []).
Proof.
  apply (dispatch_ignores_letter_case quiet_env (handlers quiet_env)
           (example_record "STOPFIND" (PStr "{not json"))
           [("command", PStr "stopFind"); ("id", PStr "c-1")]
           (PStr "c-1") "STOPFIND" "stopFind" (initial_state []));
    reflexivity.
Defined.

(** ** The helpers that talk to the store *)

Section StoreHelpers.

Variable env : Env.

(** X3. [update_command_result] is best effort: it returns normally
    whatever the store does and attempts the write exactly once.  Rows
    whose identifier is not the one written to are left as they are, and
    no row is added or removed.  When the store raises, the table is
    unchanged and the failure is logged. *)
Theorem completion_write_is_best_effort
    (cmd_id result : pyval) (st : State) :
  exists st',
    update_command_result env cmd_id result st = (Ok tt, st') /\
    trace st' = (trace st ++ [completion_call env (trace st) cmd_id result])%list /\
    length (commands_table st') = length (commands_table st) /\
    (forall i r, commands_table st !! i = Some r -> id_matches cmd_id r = false ->
                 commands_table st' !! i = Some r) /\
    (forall msg,
       answer env (trace st) (completion_call env (trace st) cmd_id result)
         = inr msg ->
       commands_table st' = commands_table st /\
       log st' = (log st ++ [mkLog ERROR "Failed to update command result: {}"
                               [PStr msg]])%list).
Proof.
  rewrite update_command_result_run. cbv zeta.
  destruct (answer env (trace st) (completion_call env (trace st) cmd_id result))
    as [v | msg] eqn:Hans; eexists; (split; [reflexivity |]).
  - cbn [trace set_commands_table add_call set_trace commands_table].
    split; [reflexivity |]. split; [apply length_map |]. split.
    + intros i r Hi Hm. unfold apply_completion.
      rewrite list_lookup_fmap, Hi. simpl. rewrite Hm. reflexivity.
    + intros msg Hmsg. discriminate.
  - cbn [trace add_log set_log add_call set_trace commands_table log].
    split; [reflexivity |]. split; [reflexivity |]. split.
    + intros i r Hi _. exact Hi.
    + intros msg' Hmsg. injection Hmsg as <-. split; reflexivity.
Qed.

(** X4. [upload_file] never raises.  Either every step succeeded, nothing
    is logged and the value returned is the answer of
    [get_public_url]; or a step raised, the failure is logged as
    ["Upload failed: ..."] and the value returned is [None]. *)
Theorem upload_file_never_raises (dir filename bucket : string) (st : State) :
  exists v st',
    upload_file env dir filename bucket st = (Ok v, st') /\
    ((log st' = log st /\
      calls "storage.get_public_url" (trace st')
        = S (calls "storage.get_public_url" (trace st)) /\
      exists tr c, callee c = "storage.get_public_url" /\
                   answer env tr c = inl v) \/
     (v = PNone /\
      exists msg, log st' = (log st ++ [mkLog ERROR "Upload failed: {}"
                                          [PStr msg]])%list)).
Proof.
  unfold upload_file, try_except, bind, gets, ext, ret, logger_error, logger,
    modify.
  cbn [trace set_trace device_id].
  repeat match goal with
         | |- context [answer env ?tr ?c] =>
             let H := fresh "Hans" in
             destruct (answer env tr c) eqn:H; cbv beta iota
         end;
    eexists _, _; (split; [reflexivity |]);
    first [ right; split; [reflexivity |]; eexists; reflexivity
          | left; cbn [log set_trace trace]; split; [reflexivity |]; split;
            [ rewrite !calls_app; cbn; lia
            | eexists _, _; split; cycle 1; [eassumption | reflexivity] ] ].
Qed.

End StoreHelpers.

(** ** What leaves the slots and the threads alone *)

(** [keeps m]: [m] changes neither the slot map, nor the list of threads,
    nor the [running] flag. *)
Definition keeps {A} (m : M A) : Prop :=
  forall st,
    running_commands (snd (m st)) = running_commands st /\
    threads (snd (m st)) = threads st /\
    running (snd (m st)) = running st.

Lemma keeps_ret {A} (a : A) : keeps (ret a).
Proof. intros st. auto. Qed.

Lemma keeps_raise {A} e : keeps (@raise A e).
Proof. intros st. auto. Qed.

Lemma keeps_gets {A} (f : State -> A) : keeps (gets f).
Proof. intros st. auto. Qed.

Lemma keeps_bind {A B} (m : M A) (k : A -> M B) :
  keeps m -> (forall a, keeps (k a)) -> keeps (bind m k).
Proof.
  intros Hm Hk st. unfold bind. specialize (Hm st).
  destruct (m st) as [[a | e] st1]; simpl in *; [| exact Hm].
  destruct (Hk a st1) as (H1 & H2 & H3). destruct Hm as (H1' & H2' & H3').
  repeat split; congruence.
Qed.

Lemma keeps_try_except {A} (body : M A) (h : string -> M A) :
  keeps body -> (forall e, keeps (h e)) -> keeps (try_except body h).
Proof.
  intros Hb Hh st. unfold try_except. specialize (Hb st).
  destruct (body st) as [[a | [msg |]] st1]; simpl in *; try exact Hb.
  destruct (Hh msg st1) as (H1 & H2 & H3). destruct Hb as (H1' & H2' & H3').
  repeat split; congruence.
Qed.

Lemma keeps_try_bare {A} (body h : M A) :
  keeps body -> keeps h -> keeps (try_bare body h).
Proof.
  intros Hb Hh st. unfold try_bare. specialize (Hb st).
  destruct (body st) as [[a | e] st1]; simpl in *; [exact Hb |].
  destruct (Hh st1) as (H1 & H2 & H3). destruct Hb as (H1' & H2' & H3').
  repeat split; congruence.
Qed.

Lemma keeps_ext env f args : keeps (ext env f args).
Proof.
  intros st. unfold ext. destruct (answer env (trace st) _); simpl; auto.
Qed.

Lemma keeps_logger lv fmt args : keeps (logger lv fmt args).
Proof. intros st. simpl. auto. Qed.

Ltac keeps_step :=
  match goal with
  | |- keeps (bind _ _) => apply keeps_bind; [| intros ?]
  | |- keeps (try_except _ _) => apply keeps_try_except; [| intros ?]
  | |- keeps (try_bare _ _) => apply keeps_try_bare
  | |- keeps (ret _) => apply keeps_ret
  | |- keeps (raise _) => apply keeps_raise
  | |- keeps (gets _) => apply keeps_gets
  | |- keeps (ext _ _ _) => apply keeps_ext
  | |- keeps (logger _ _ _) => apply keeps_logger
  | |- keeps (if ?b then _ else _) => destruct b
  | |- keeps (match ?x with _ => _ end) => destruct x
  end.

Ltac keeps_auto :=
  unfold py_get, py_int, py_len, getitem, getattr, attribute_error, py_lower,
    timestamp, utcnow_isoformat, logger_info, logger_error, logger_warning;
  repeat keeps_step.

Lemma cmd_location_keeps env args : keeps (cmd_location env args).
Proof. unfold cmd_location. keeps_auto. Qed.

Lemma update_device_location_keeps env loc :
  keeps (update_device_location env loc).
Proof. unfold update_device_location. keeps_auto. Qed.

(** ** Durations and delays *)

Section Durations.

Variable env : Env.

(** [int(args.get(key, dflt))], the expression the handlers start with. *)
Definition int_arg (args : pyval) (key : string) (dflt : Z) : M Z :=
  let* v := py_get args key (PInt dflt) in
  py_int env v.

(** A handler that starts with [int(args.get(key, dflt))]. *)
Lemma int_arg_bind {A} args key dflt (k : Z -> M A) st :
  (let* v := py_get args key (PInt dflt) in
   let* n := py_int env v in k n) st
  = match int_arg args key dflt st with
    | (Ok n, _) => k n st
    | (Raise e, _) => (Raise e, st)
    end.
Proof.
  unfold int_arg, bind, py_get, py_int, attribute_error, raise, ret.
  destruct args as [| | | | | | | d]; try reflexivity.
  destruct (default (PInt dflt) (dict_get d key)); try reflexivity.
  destruct (int_of_str env s); reflexivity.
Qed.

Definition power_call (flag : string) (delay : Z) : Call :=
  mkCall "subprocess.run"
         [PList [PStr "shutdown"; PStr flag; PStr "/t"; PStr (pretty delay)]].

(** X5. [cmd_shutdown] and [cmd_restart] run [shutdown] only with a delay
    that converts to an integer.  When [int(args.get('delay', 60))]
    raises, nothing is run and the failure is the result; when it gives
    [n], the one external call is [shutdown /s /t n] (or [/r]), with no
    bound on [n]. *)
Theorem power_commands_need_an_integer_delay (args : pyval) (st : State) :
  (forall msg,
     fst (int_arg args "delay" 60 st) = Raise (Exception msg) ->
     cmd_shutdown env args st = (Ok (failure msg), st) /\
     cmd_restart env args st = (Ok (failure msg), st)) /\
  (forall n,
     fst (int_arg args "delay" 60 st) = Ok n ->
     trace (snd (cmd_shutdown env args st)) = (trace st ++ [power_call "/s" n])%list /\
     trace (snd (cmd_restart env args st)) = (trace st ++ [power_call "/r" n])%list).
Proof.
  split.
  - intros msg H. unfold cmd_shutdown, cmd_restart, try_except.
    rewrite !int_arg_bind.
    destruct (int_arg args "delay" 60 st) as [[n | e] s]; simpl in H;
      [discriminate |].
    injection H as ->. split; reflexivity.
  - intros n H. unfold cmd_shutdown, cmd_restart, try_except.
    rewrite !int_arg_bind.
    destruct (int_arg args "delay" 60 st) as [[n' | e] s]; simpl in H;
      [| discriminate].
    injection H as ->. unfold bind, ext, power_call.
    split.
    + destruct (answer env (trace st) _); reflexivity.
    + destruct (answer env (trace st) _); reflexivity.
Qed.

End Durations.

Lemma bind_raise {A B} (m : M A) (k : A -> M B) st e st' :
  m st = (Raise e, st') -> bind m k st = (Raise e, st').
Proof. intros H. unfold bind. rewrite H. reflexivity. Qed.

Section Caps.

Variable env : Env.

Definition start_call (k : kind) : Call :=
  mkCall "threading.Thread.start" [PStr (slot k)].

(** Starting a thread either succeeds and adds it, or raises and adds
    nothing. *)
Lemma start_task_run k d st :
  (exists v : pyval,
     start_task env k d st =
       (Ok tt, set_threads (threads st ++ [mkTask k d 0 AtStart])
                 (add_call (start_call k) st))) \/
  (exists msg,
     start_task env k d st = (Raise (Exception msg), add_call (start_call k) st)).
Proof.
  unfold start_task, bind, ext, modify, start_call, add_call.
  destruct (answer env (trace st) _) as [v | msg]; [left | right]; eauto.
Qed.

(** X6. [cmd_alarm] and [cmd_findme] never remove or replace a thread, and
    a thread they start is capped: an alarm lasts at most 60 seconds and a
    find-me at most 300, whatever [duration] asks for.  When a thread is
    started, the slot of its kind holds [True]. *)
Theorem background_tasks_are_capped (args : pyval) (st : State) :
  let a := snd (cmd_alarm env args st) in
  let f := snd (cmd_findme env args st) in
  (threads a = threads st \/
   exists d, d <= 60 /\
             threads a = (threads st ++ [mkTask Alarm d 0 AtStart])%list /\
             running_commands a !! "alarm" = Some true) /\
  (threads f = threads st \/
   exists d, d <= 300 /\
             threads f = (threads st ++ [mkTask Findme d 0 AtStart])%list /\
             running_commands f !! "findme" = Some true).
Proof.
  cbv zeta. split.
  - unfold cmd_alarm, try_except. rewrite int_arg_bind.
    destruct (int_arg env args "duration" 10 st) as [[n | [msg |]] s];
      [| left; reflexivity | left; reflexivity].
    erewrite bind_ok by reflexivity.
    destruct (start_task_run Alarm (Z.min n 60)
                (set_running_commands (<["alarm" := true]> (running_commands st)) st))
      as [(v & Hs) | (msg & Hs)].
    + erewrite bind_ok by exact Hs.
      right. exists (Z.min n 60). split; [lia |].
      cbn [snd ret threads set_threads add_call set_trace set_running_commands
             running_commands].
      split; [reflexivity | apply lookup_insert_eq].
    + erewrite bind_raise by exact Hs. left. reflexivity.
  - unfold cmd_findme, try_except. rewrite int_arg_bind.
    destruct (int_arg env args "duration" 60 st) as [[n | [msg |]] s];
      [| left; reflexivity | left; reflexivity].
    erewrite bind_ok by reflexivity.
    destruct (start_task_run Findme (Z.min n 300)
                (set_running_commands (<["findme" := true]> (running_commands st)) st))
      as [(v & Hs) | (msg & Hs)].
    + erewrite bind_ok by exact Hs.
      right. exists (Z.min n 300). split; [lia |].
      match goal with
      | |- context [bind (cmd_location env ?a) ?k ?s] =>
          destruct (cmd_location_keeps env a s) as (Hrc & Hth & _);
          unfold bind; destruct (cmd_location env a s) as [[loc | [msg |]] s2]
      end;
        cbn [snd ret] in *; rewrite Hrc, Hth;
        cbn [threads set_threads add_call set_trace set_running_commands
               running_commands];
        (split; [reflexivity | apply lookup_insert_eq]).
    + erewrite bind_raise by exact Hs. left. reflexivity.
Qed.

Definition battery_call : Call := mkCall "psutil.sensors_battery" [].

(** X7. On a host without a battery ([psutil.sensors_battery()] returns
    [None]), [cmd_battery] reports a desktop on mains power:
    [{success: True, percent: 100, plugged: True,
      status: "Desktop (No Battery)"}]. *)
Theorem no_battery_reads_as_desktop (args v : pyval) (st : State) :
  answer env (trace st) battery_call = inl v ->
  truthy v = false ->
  cmd_battery env args st =
    (Ok (PDict [("success", PBool true); ("percent", PInt 100);
                ("plugged", PBool true);
                ("status", PStr "Desktop (No Battery)")]),
     add_call battery_call st).
Proof.
  intros Hans Hv. unfold cmd_battery, try_except, bind, ext.
  fold battery_call. rewrite Hans, Hv. reflexivity.
Qed.

Lemma stop_slots_alarm rc : slot_active (stop_slots rc) "alarm" = false.
Proof.
  unfold stop_slots. destruct (slot_active rc "alarm") eqn:Ea.
  - rewrite slot_active_insert_ne by discriminate.
    destruct (slot_active rc "findme") eqn:Ef.
    + rewrite slot_active_insert_ne by discriminate.
      unfold slot_active. rewrite lookup_insert_eq. reflexivity.
    + unfold slot_active. rewrite lookup_insert_eq. reflexivity.
  - destruct (slot_active rc "findme") eqn:Ef.
    + rewrite slot_active_insert_ne by discriminate. exact Ea.
    + exact Ea.
Qed.

Lemma stop_slots_findme rc : slot_active (stop_slots rc) "findme" = false.
Proof.
  unfold stop_slots. destruct (slot_active rc "alarm") eqn:Ea.
  - rewrite slot_active_insert_ne by discriminate.
    destruct (slot_active rc "findme") eqn:Ef.
    + unfold slot_active. rewrite lookup_insert_eq. reflexivity.
    + rewrite slot_active_insert_ne by discriminate. exact Ef.
  - destruct (slot_active rc "findme") eqn:Ef.
    + unfold slot_active. rewrite lookup_insert_eq. reflexivity.
    + exact Ef.
Qed.

(** X8. After [cmd_stop] neither slot is active, whatever was active
    before; every other key of the slot map, the list of threads and the
    [running] flag are as they were (the threads are signalled, not
    killed); and a second [cmd_stop] finds no slot to stop. *)
Theorem stop_leaves_no_slot_active (args : pyval) (st : State) :
  let st' := snd (cmd_stop env args st) in
  slot_active (running_commands st') "alarm" = false /\
  slot_active (running_commands st') "findme" = false /\
  (forall k, k <> "alarm" -> k <> "findme" ->
     running_commands st' !! k = running_commands st !! k) /\
  threads st' = threads st /\ running st' = running st /\
  found_active (running_commands (snd (cmd_stop env args st))) = [].
Proof.
  cbv zeta. rewrite cmd_stop_run. cbv zeta.
  cbn [snd add_call set_trace set_running_commands running_commands threads
         running].
  pose proof (stop_slots_alarm (running_commands st)) as Ha.
  pose proof (stop_slots_findme (running_commands st)) as Hf.
  split; [exact Ha |]. split; [exact Hf |]. split.
  { intros k Hk1 Hk2. unfold stop_slots.
    destruct (slot_active (running_commands st) "alarm");
      [rewrite slot_active_insert_ne by discriminate |];
      destruct (slot_active (running_commands st) "findme");
      rewrite ?lookup_insert_ne by congruence; reflexivity. }
  split; [reflexivity |]. split; [reflexivity |].
  unfold found_active. rewrite Ha, Hf. reflexivity.
Qed.

End Caps.

Lemma no_battery_reads_as_desktop_witness :
  fst (cmd_battery quiet_env (PDict []) (initial_state [])) =
    Ok (PDict [("success", PBool true); ("percent", PInt 100);
               ("plugged", PBool true);
               ("status", PStr "Desktop (No Battery)")]).
Proof.
  rewrite (no_battery_reads_as_desktop quiet_env (PDict []) PNone
             (initial_state []) eq_refl eq_refl).
  reflexivity.
Defined.

(** ** Stop commands and the loops *)

Section StopAndLoops.

Variable env : Env.

(** X9. The stop commands reach the loops through the slot map alone.
    After [cmd_stopfind], a find-me thread at its check leaves its loop,
    while an alarm thread at its check does what it would have done
    without the command.  After [cmd_stop], a thread of either kind at its
    check leaves its loop. *)
Theorem stop_commands_reach_the_loops (args : pyval) (t : task) (st : State) :
  task_pc t = AtCheck ->
  let s_find := snd (cmd_stopfind args st) in
  let s_stop := snd (cmd_stop env args st) in
  (task_kind t = Findme ->
     task_step env t s_find = (Ok (with_pc AtExit t), s_find)) /\
  (task_kind t = Alarm ->
     fst (task_step env t s_find) = fst (task_step env t st)) /\
  task_step env t s_stop = (Ok (with_pc AtExit t), s_stop).
Proof.
  intros Hpc s_find s_stop. split; [| split].
  - intros Hk. apply task_step_cancelled; [exact Hpc |].
    rewrite Hk. unfold s_find, cmd_stopfind, bind, modify, slot_active.
    cbn [snd running_commands set_running_commands slot ret].
    rewrite lookup_insert_eq. reflexivity.
  - intros Hk. unfold task_step. rewrite Hpc, Hk.
    unfold s_find, cmd_stopfind, bind, modify, gets.
    cbn [snd fst running_commands set_running_commands slot ret].
    rewrite slot_active_insert_ne by discriminate.
    destruct (negb (slot_active (running_commands st) "alarm")); reflexivity.
  - apply task_step_cancelled; [exact Hpc |].
    unfold s_stop. rewrite cmd_stop_run. cbv zeta.
    cbn [snd add_call set_trace set_running_commands running_commands].
    destruct (task_kind t); cbn [slot];
      [apply stop_slots_alarm | apply stop_slots_findme].
Qed.

(** Up to the assignment after the loop, a task touches neither the slot
    map nor the list of threads. *)
Lemma task_step_keeps t :
  task_pc t <> AtExit -> keeps (task_step env t).
Proof.
  intros Hpc. unfold task_step, time_time.
  destruct (task_pc t); try contradiction; keeps_auto;
    first [ apply cmd_location_keeps | apply update_device_location_keeps ].
Qed.

(** X10. A loop that dies on an exception (a failed import of [winsound],
    a failing beep, a clock that fails) does not clear its slot: the
    thread is over, the slot map is exactly as it was, and no other thread
    is affected.  A slot that was active stays active. *)
Theorem crashed_loop_leaves_its_slot
    (i : nat) (t : task) (st : State) (e : exn) (st1 : State) :
  threads st !! i = Some t ->
  task_step env t st = (Raise e, st1) ->
  let st' := snd (run_thread env i st) in
  running_commands st' = running_commands st /\
  threads st' = <[i := with_pc Crashed t]> (threads st).
Proof.
  intros Hi Hstep. cbv zeta. unfold run_thread. rewrite Hi, Hstep.
  cbn [snd running_commands set_threads threads].
  assert (Hpc : task_pc t <> AtExit).
  { intros Hpc. rewrite (task_step_at_exit env t st Hpc) in Hstep. discriminate. }
  destruct (task_step_keeps t Hpc st) as (Hrc & Hth & _).
  rewrite Hstep in Hrc, Hth. cbn [snd] in Hrc, Hth.
  rewrite Hrc, Hth. split; reflexivity.
Qed.

End StopAndLoops.

(** A host without the [winsound] module. *)
Definition no_winsound (tr : list Call) (c : Call) : pyval + string :=
  if String.eqb (callee c) "import" then inr "No module named 'winsound'"
  else inl PNone.

Definition alarm_started : State :=
  mkState (Some "device-1") true {["alarm" := true]}
          [mkTask Alarm 10 0 AtStart] [] [] [].

Lemma crashed_loop_leaves_its_slot_witness :
  running_commands (snd (run_thread (example_env no_winsound true) 0 alarm_started))
    !! "alarm" = Some true.
Proof.
  destruct (crashed_loop_leaves_its_slot (example_env no_winsound true) 0%nat
              (mkTask Alarm 10 0 AtStart) alarm_started
              (Exception "No module named 'winsound'")
              (add_call (mkCall "import" [PStr "winsound"]) alarm_started)
              eq_refl eq_refl) as [Hrc _].
  rewrite Hrc. reflexivity.
Defined.

Lemma stop_commands_reach_the_loops_witness :
  task_step quiet_env (mkTask Findme 60 0 AtCheck)
    (snd (cmd_stopfind (PDict []) alarm_started))
  = (Ok (mkTask Findme 60 0 AtExit), snd (cmd_stopfind (PDict []) alarm_started)).
Proof.
  apply (proj1 (stop_commands_reach_the_loops quiet_env (PDict [])
                  (mkTask Findme 60 0 AtCheck) alarm_started eq_refl)).
  reflexivity.
Defined.

(** ** The heartbeat *)

Definition sleeps_succeed (env : Env) : Prop :=
  forall tr args, exists v, answer env tr (mkCall "time.sleep" args) = inl v.

Section Heartbeat.

Variable env : Env.

Definition heartbeat_handler (e : string) : M unit :=
  logger_error "Heartbeat error: {}" [PStr e].

(** One liveness write, attempted and survived. *)
Lemma heartbeat_round st :
  exists st1,
    try_except (update_heartbeat env) heartbeat_handler st = (Ok tt, st1) /\
    calls "devices.update.execute" (trace st1)
      = S (calls "devices.update.execute" (trace st)) /\
    running st1 = running st.
Proof.
  unfold try_except, update_heartbeat, utcnow_isoformat, bind, gets, ret, ext,
    heartbeat_handler, logger_error, logger, modify.
  cbn [trace device_id].
  destruct (answer env (trace st) _) as [v | msg]; eexists;
    (split; [reflexivity |]);
    cbn [trace set_trace set_log running]; rewrite calls_app;
    (split; [cbn; lia | reflexivity]).
Qed.

(** X11. A failing liveness write does not stop the heartbeat.  While
    [running] holds and the sleeps return, [heartbeat_loop] attempts one
    write of [last_seen] and [is_online] per round, whether or not the
    earlier writes failed, and it never raises. *)
Theorem heartbeat_survives_store_failures (fuel : nat) (st : State) :
  sleeps_succeed env ->
  running st = true ->
  exists st',
    heartbeat_loop env fuel st = (Ok tt, st') /\
    calls "devices.update.execute" (trace st')
      = (calls "devices.update.execute" (trace st) + fuel)%nat /\
    running st' = true.
Proof.
  intros Hsleep. revert st. induction fuel as [| n IH]; intros st Hrun.
  - exists st. split; [reflexivity |]. split; [lia | exact Hrun].
  - cbn [heartbeat_loop]. erewrite bind_ok by reflexivity.
    cbn [running]. rewrite Hrun.
    destruct (heartbeat_round st) as (st1 & H1 & Hc1 & Hr1).
    erewrite bind_ok by exact H1.
    destruct (Hsleep (trace st1) [PInt 30]) as [v Hv].
    erewrite bind_ok by (apply ext_ok; exact Hv).
    destruct (IH (add_call (mkCall "time.sleep" [PInt 30]) st1)) as (st' & H' & Hc' & Hr').
    { cbn [add_call set_trace running]. congruence. }
    exists st'. split; [exact H' |]. split; [| exact Hr'].
    rewrite Hc'. cbn [add_call set_trace trace]. rewrite calls_app, Hc1.
    cbn. lia.
Qed.

End Heartbeat.

(** A store that refuses every update of the devices table. *)
Definition devices_down (tr : list Call) (c : Call) : pyval + string :=
  if String.eqb (callee c) "devices.update.execute" then inr "503" else inl PNone.

Lemma heartbeat_survives_store_failures_witness :
  exists st',
    heartbeat_loop (example_env devices_down true) 3 alarm_started = (Ok tt, st') /\
    calls "devices.update.execute" (trace st') = 3%nat /\
    running st' = true.
Proof.
  apply (heartbeat_survives_store_failures (example_env devices_down true) 3
           alarm_started).
  - intros tr args. exists PNone. reflexivity.
  - reflexivity.
Defined.

(** ** The push callback *)

(** The record a realtime payload asks to process, if any: the payload is
    an INSERT whose new row is for this device and pending. *)
Definition actionable (d : option string) (payload : pyval) : option dict :=
  match payload with
  | PDict p =>
      if eq_str (default PNone (dict_get p "eventType")) "INSERT" then
        match default (PDict []) (dict_get p "new") with
        | PDict r =>
            if eq_device (default PNone (dict_get r "device_id")) d
               && eq_str (default PNone (dict_get r "status")) "pending"
            then Some r else None
        | _ => None
        end
      else None
  | _ => None
  end.

Section PushCallback.

Variable env : Env.
Variable hs : gmap string Handler.

(** [process_command] never ends in an [Exception]. *)
Lemma process_command_no_exception command st msg :
  fst (process_command env hs command st) <> Raise (Exception msg).
Proof.
  unfold process_command, try_except.
  destruct (process_command_body env hs command st) as [[[] | [m |]] st1];
    simpl; discriminate.
Qed.

(** X12. [on_command_received] acts only on INSERT events whose new row is
    for this device and pending.  For any other payload (another event
    type, another device, another status, or a payload or row that is no
    dictionary) nothing happens but logging: no handler runs and no
    external call is made.  For an actionable payload the row is handed
    to [process_command] after two log records. *)
Theorem callback_filters_events (payload : pyval) (st : State) :
  match actionable (device_id st) payload with
  | None => exists l, on_command_received env hs payload st = (Ok tt, set_log l st)
  | Some r =>
      exists ev name,
        on_command_received env hs payload st =
          process_command env hs r
            (add_log (mkLog INFO "New command received: {}" [name])
               (add_log (mkLog INFO "Realtime event: {}" [ev]) st))
  end.
Proof.
  unfold actionable, on_command_received, try_except, py_get.
  destruct payload as [| | | | | | | p];
    try (eexists; reflexivity).
  erewrite bind_ok by reflexivity.
  erewrite bind_ok by reflexivity.
  erewrite bind_ok by reflexivity.
  destruct (eq_str (default PNone (dict_get p "eventType")) "INSERT");
    [| eexists; reflexivity].
  erewrite bind_ok by reflexivity.
  destruct (default (PDict []) (dict_get p "new")) as [| | | | | | | r];
    try (eexists; reflexivity).
  erewrite bind_ok by reflexivity.
  erewrite bind_ok by reflexivity. cbn [device_id set_log].
  destruct (eq_device (default PNone (dict_get r "device_id")) (device_id st));
    [| eexists; reflexivity].
  erewrite bind_ok by reflexivity.
  destruct (eq_str (default PNone (dict_get r "status")) "pending");
    [| eexists; reflexivity].
  cbn [andb]. erewrite bind_ok by reflexivity.
  erewrite bind_ok by reflexivity.
  exists (default PNone (dict_get p "eventType")),
         (default PNone (dict_get r "command")).
  match goal with
  | |- match process_command env hs r ?s with _ => _ end
       = process_command env hs r ?s' =>
      change s with s';
      pose proof (process_command_no_exception r s') as Hne;
      destruct (process_command env hs r s') as [[[] | [m |]] s1]
  end.
  - reflexivity.
  - exfalso. apply (Hne m). reflexivity.
  - reflexivity.
Qed.

End PushCallback.

(** ** User interrupts *)

Definition poll_round (env : Env) (hs : gmap string Handler) : M unit :=
  try_except
    (let* data := select_pending env in
     for_each data (process_command env hs) ;;
     update_heartbeat env)
    (fun e => logger_error "Listen loop error: {}" [PStr e]).

Section Interrupts.

Variable env : Env.

Let hs := handlers env.
Let sweep := process_pending_commands env hs.

(** With a device configured and the heartbeat thread started, [listen]
    comes to the choice of the transport. *)
Lemma listen_after_startup fuel st d v :
  device_id st = Some d -> d <> "" ->
  let s1 := snd (sweep (prelude st)) in
  answer env (trace s1) heartbeat_start = inl v ->
  listen env hs fuel st =
    (if REALTIME_AVAILABLE env then run_realtime env hs fuel
     else (logger_info "Realtime not available, using polling mode" [] ;;
           listen_polling env hs fuel))
      (add_log (mkLog INFO "Heartbeat thread started" [])
         (add_call heartbeat_start s1)).
Proof.
  intros Hd Hne s1 Hstart.
  unfold hs. rewrite (listen_run env fuel st d Hd Hne). fold hs sweep s1.
  unfold select_transport.
  erewrite bind_ok by (apply ext_ok; exact Hstart).
  erewrite bind_ok by reflexivity. reflexivity.
Qed.

(** X13. A user interrupt while the push transport is being set up or is
    running ends [listen] in good order: the stop is logged, [running] is
    set to [False], [listen] returns normally, and the poller is not
    started. *)
Theorem interrupt_stops_push_listener
    (fuel : nat) (st : State) (d : string) (v : pyval) (s3 : State) :
  device_id st = Some d -> d <> "" ->
  let s1 := snd (sweep (prelude st)) in
  answer env (trace s1) heartbeat_start = inl v ->
  REALTIME_AVAILABLE env = true ->
  listen_realtime env hs fuel
    (add_log (mkLog INFO "Heartbeat thread started" [])
       (add_call heartbeat_start s1)) = (Raise KeyboardInterrupt, s3) ->
  listen env hs fuel st =
    (Ok tt, set_running false
              (add_log (mkLog INFO "Command listener stopped by user" []) s3)).
Proof.
  intros Hd Hne s1 Hstart HR Hint.
  rewrite (listen_after_startup fuel st d v Hd Hne Hstart), HR.
  unfold run_realtime. fold s1. rewrite Hint. reflexivity.
Qed.

Lemma poll_round_returns st : exists st1, poll_round env hs st = (Ok tt, st1).
Proof.
  assert (Hany : forall l n, mem n l = true -> anything n = true) by reflexivity.
  assert (Hb : sat anything anything false
                 (let* data := select_pending env in
                  for_each data (process_command env hs) ;;
                  update_heartbeat env)).
  { apply sat_bind; [apply select_pending_sat; apply Hany |].
    intros data. apply sat_bind.
    - apply sat_for_each. intros c.
      apply (process_command_sat' env anything anything (Hany _) (Hany _)).
    - intros _. apply update_heartbeat_sat; apply Hany. }
  destruct (Hb st) as [_ Hn]. unfold poll_round, try_except.
  match goal with
  | |- context [let (_, _) := ?b st in _] =>
      destruct (b st) as [[[] | [msg |]] st1]
  end; simpl in *.
  - eauto.
  - unfold logger_error, logger, modify. eauto.
  - exfalso. apply Hn; reflexivity.
Qed.

(** X14. In polling mode a user interrupt is not caught.  When the
    interrupt arrives during the sleep that follows a round of the poller,
    [listen_polling] ends in [KeyboardInterrupt], right after that round:
    no log record is written for it and [running] is not reset. *)
Theorem interrupt_escapes_the_poller (fuel : nat) (st : State) :
  running st = true ->
  let s0 := add_log (mkLog INFO "Using polling mode (fallback)..." []) st in
  let s1 := snd (poll_round env hs s0) in
  interrupted env (trace s1) = true ->
  listen_polling env hs (S fuel) st = (Raise KeyboardInterrupt, s1).
Proof.
  intros Hrun s0 s1 Hint.
  unfold listen_polling. erewrite bind_ok by reflexivity.
  cbn [polling_loop]. erewrite bind_ok by reflexivity.
  cbn [running set_log]. rewrite Hrun.
  destruct (poll_round_returns s0) as [st1 H1].
  assert (Hs1 : s1 = st1) by (unfold s1; rewrite H1; reflexivity).
  erewrite bind_ok by exact H1.
  unfold bind at 1, sleep_main. erewrite bind_ok by reflexivity.
  rewrite <- Hs1, Hint. reflexivity.
Qed.

End Interrupts.

(** A user who interrupts at the first opportunity. *)
Definition interrupting_env (realtime : bool) : Env :=
  mkEnv silent example_json_loads (fun _ => "<json>") ascii_lower
        example_int_of_str (fun _ => "<message of int()>")
        (fun _ => "2024-01-01T00:00:00") (fun _ => true) realtime.

Lemma interrupt_stops_push_listener_witness :
  running (snd (listen (interrupting_env true) (handlers (interrupting_env true))
                  1 (initial_state []))) = false.
Proof.
  erewrite (interrupt_stops_push_listener (interrupting_env true) 1
              (initial_state []) "device-1" PNone);
    [reflexivity | reflexivity | discriminate | reflexivity | reflexivity
    | vm_compute; reflexivity].
Defined.

Lemma interrupt_escapes_the_poller_witness :
  fst (listen_polling (interrupting_env false)
         (handlers (interrupting_env false)) 2 alarm_started)
  = Raise KeyboardInterrupt.
Proof.
  rewrite (interrupt_escapes_the_poller (interrupting_env false) 1
             alarm_started eq_refl eq_refl).
  reflexivity.
Defined.

(** ** The photos a capture reports *)

(** The photos of a result of [cmd_photo]: the list under ['photos']. *)
Definition photos_of (r : pyval) : list pyval :=
  match r with
  | PDict d => match dict_get d "photos" with Some (PList l) => l | _ => [] end
  | _ => []
  end.

Section Photos.

Variable env : Env.

Lemma capture_frame_length i photos st l st' :
  capture_frame env i photos st = (Ok l, st') ->
  (length l <= S (length photos))%nat.
Proof.
  unfold capture_frame. intros H.
  inv_bind H. inv_bind H. inv_bind H. injection H as <- _.
  destruct a as [| | | | | | r |]; try discriminate.
  destruct r as [| ok [| frame [| x r]]]; try discriminate.
  destruct (truthy ok).
  - inv_bind Hm0. inv_bind Hm0. inv_bind Hm0. injection Hm0 as <- _.
    rewrite length_app. simpl. lia.
  - injection Hm0 as <- _. lia.
Qed.

Lemma capture_frames_length indices photos st l st' :
  capture_frames env indices photos st = (Ok l, st') ->
  (length l <= length photos + length indices)%nat.
Proof.
  revert photos st. induction indices as [| i rest IH]; intros photos st H;
    cbn [capture_frames] in H.
  - injection H as <- _. simpl. lia.
  - inv_bind H. apply capture_frame_length in Hm. apply IH in H.
    simpl. lia.
Qed.

(** X15. A successful [cmd_photo] reports at most 5 photos, and the count
    in its message is the number of photos in its list: frames that could
    not be read are not counted. *)
Theorem photo_reports_at_most_5
    (args : pyval) (st : State) (d : dict) (st' : State) (l : list pyval) :
  cmd_photo env args st = (Ok (PDict d), st') ->
  dict_get d "photos" = Some (PList l) ->
  (length l <= 5)%nat /\
  dict_get d "message"
    = Some (PStr ("Captured " ++ pretty (Z.of_nat (length l)) ++ " photo(s)")).
Proof.
  unfold cmd_photo, try_except. intros H Hp.
  match type of H with
  | (let (_, _) := ?b st in _) = _ =>
      destruct (b st) as [[r | [msg |]] s1] eqn:Hb
  end; try discriminate.
  2:{ injection H as <- _. discriminate. }
  injection H as -> ->.
  inv_bind Hb. apply photo_count_le_5 in Hm.
  inv_bind Hb. inv_bind Hb.
  destruct (negb (truthy a1)).
  { injection Hb as <- _. discriminate. }
  inv_bind Hb. inv_bind Hb. inv_bind Hb. injection Hb as <- _.
  apply capture_frames_length in Hm3. rewrite length_range in Hm3.
  cbn [dict_get String.eqb Ascii.eqb Bool.eqb andb] in Hp.
  injection Hp as <-.
  split; [simpl in Hm3; lia | reflexivity].
Qed.

Definition open_camera : Call := mkCall "cv2.VideoCapture" [PInt 0].
Definition is_opened : Call := mkCall "cap.isOpened" [].

(** X16. When the webcam does not open, [cmd_photo] gives up at once:
    the result is [{success: False, error: "No webcam found"}], no frame
    is read, nothing is written or uploaded, and the capture object is not
    released. *)
Theorem photo_without_webcam (args : pyval) (st : State) (n : Z) (cap opened : pyval) :
  fst (int_arg env args "count" 1 st) = Ok n ->
  answer env (trace st) open_camera = inl cap ->
  answer env (trace st ++ [open_camera]) is_opened = inl opened ->
  truthy opened = false ->
  cmd_photo env args st =
    (Ok (PDict [("success", PBool false); ("error", PStr "No webcam found")]),
     add_call is_opened (add_call open_camera st)).
Proof.
  intros Hn Hcap Hopen Hfalse.
  unfold cmd_photo, photo_count, try_except.
  match goal with
  | |- context [bind (bind ?m ?f) ?k st] =>
      change (bind (bind m f) k st)
        with (match bind m f st with
              | (Ok a, s) => k a s
              | (Raise e, s) => (Raise e, s)
              end)
  end.
  rewrite int_arg_bind.
  destruct (int_arg env args "count" 1 st) as [[n' | e] s]; simpl in Hn;
    [| discriminate].
  unfold ret at 1.
  erewrite bind_ok by (apply ext_ok; exact Hcap).
  erewrite bind_ok by (apply ext_ok; exact Hopen).
  rewrite Hfalse. reflexivity.
Qed.

End Photos.

Lemma photo_reports_at_most_5_witness :
  (length (photos_of
             match fst (cmd_photo (example_env working_camera true)
                          (PDict [("count", PInt 10)]) (initial_state [])) with
             | Ok r => r
             | Raise _ => PNone
             end) <= 5)%nat.
Proof.
  eapply proj1.
  eapply (photo_reports_at_most_5 (example_env working_camera true)
            (PDict [("count", PInt 10)]) (initial_state [])).
  - vm_compute. reflexivity.
  - vm_compute. reflexivity.
Defined.

(** A host whose webcam does not open. *)
Definition no_camera (tr : list Call) (c : Call) : pyval + string :=
  if String.eqb (callee c) "cap.isOpened" then inl (PBool false) else inl PNone.

Lemma photo_without_webcam_witness :
  calls "cap.read"
    (trace (snd (cmd_photo (example_env no_camera true) (PDict [])
                   (initial_state [])))) = 0%nat.
Proof.
  rewrite (photo_without_webcam (example_env no_camera true) (PDict [])
             (initial_state []) 1 PNone (PBool false)
             eq_refl eq_refl eq_refl eq_refl).
  reflexivity.
Defined.

(** ** The results of the handlers *)

(** [yields Q m]: whenever [m] returns, the value returned satisfies [Q]. *)
Definition yields {A} (Q : A -> Prop) (m : M A) : Prop :=
  forall st a st', m st = (Ok a, st') -> Q a.

(** A result that is a dictionary with a boolean ['success']. *)
Definition has_success (r : pyval) : Prop :=
  exists d b, r = PDict d /\ dict_get d "success" = Some (PBool b).

Lemma yields_ret {A} (Q : A -> Prop) a : Q a -> yields Q (ret a).
Proof. intros H st a' st' E. injection E as <- _. exact H. Qed.

Lemma yields_raise {A} (Q : A -> Prop) e : yields Q (raise e).
Proof. intros st a st' E. discriminate. Qed.

Lemma yields_bind {A B} (Q : B -> Prop) (m : M A) (k : A -> M B) :
  (forall a, yields Q (k a)) -> yields Q (bind m k).
Proof.
  intros Hk st b st' E. apply bind_inv in E as (a & s1 & _ & E).
  eapply Hk; exact E.
Qed.

Lemma yields_bind_post {A B} (Q1 : A -> Prop) (Q : B -> Prop)
    (m : M A) (k : A -> M B) :
  yields Q1 m -> (forall a, Q1 a -> yields Q (k a)) -> yields Q (bind m k).
Proof.
  intros Hm Hk st b st' E. apply bind_inv in E as (a & s1 & Ha & E).
  eapply Hk; [eapply Hm; exact Ha | exact E].
Qed.

Lemma yields_try_except {A} (Q : A -> Prop) (body : M A) (h : string -> M A) :
  yields Q body -> (forall e, yields Q (h e)) -> yields Q (try_except body h).
Proof.
  intros Hb Hh st a st' E. unfold try_except in E.
  destruct (body st) as [[a' | [msg |]] s1] eqn:Eb.
  - injection E as <- _. eapply Hb; exact Eb.
  - eapply Hh; exact E.
  - discriminate.
Qed.

Lemma has_success_app i d :
  has_success (PDict i) -> has_success (PDict (i ++ d)).
Proof.
  intros (i' & b & E & H). injection E as <-. exists (i ++ d)%list, b.
  split; [reflexivity |].
  induction i as [| [k v] i IH]; [discriminate |].
  cbn [dict_get app] in *.
  destruct (String.eqb "success" k); [exact H | apply IH; exact H].
Qed.

Ltac success_step :=
  match goal with
  | |- yields _ (try_except _ _) => apply yields_try_except; [| intros ?]
  | |- yields _ (bind _ _) => apply yields_bind; intros ?
  | |- yields _ (raise _) => apply yields_raise
  | |- yields _ (ret _) =>
      apply yields_ret; eexists _, _; split; reflexivity
  | |- yields _ (if ?b then _ else _) => destruct b
  | |- yields _ (match ?x with _ => _ end) => destruct x
  end.

Section Results.

Variable env : Env.

Lemma cmd_status_yields args : yields has_success (cmd_status env args).
Proof. unfold cmd_status. repeat success_step. Qed.

Lemma cmd_sysinfo_yields args : yields has_success (cmd_sysinfo env args).
Proof.
  unfold cmd_sysinfo. apply yields_try_except; [| intros; success_step].
  apply (yields_bind_post has_success); [apply cmd_status_yields |].
  intros info Hinfo. apply yields_bind. intros details.
  destruct info as [| | | | | | | i]; try (apply yields_ret; exact Hinfo).
  destruct details; apply yields_ret;
    first [exact Hinfo | apply has_success_app; exact Hinfo].
Qed.

(** Whatever a handler of the registry returns is a dictionary with a
    boolean ['success']. *)
Lemma handlers_yield name (h : Handler) args :
  handlers env !! name = Some h -> yields has_success (h args).
Proof.
  intros Hh. unfold handlers in Hh.
  apply elem_of_list_to_map_2 in Hh. unfold handler_table in Hh.
  repeat (apply elem_of_cons in Hh; destruct Hh as [Hh | Hh];
          [injection Hh as _ ->;
           first [ apply cmd_sysinfo_yields
                 | solve [unfold cmd_status, cmd_screenshot, cmd_photo,
                            cmd_location, cmd_battery, cmd_wifiinfo, cmd_audio,
                            cmd_alarm, cmd_findme, cmd_stopfind, cmd_stop,
                            cmd_listnetworks, cmd_processes, cmd_appusage,
                            cmd_lockscreen, cmd_shutdown, cmd_restart;
                          repeat success_step] ] |]).
  inversion Hh.
Qed.

(** X17. Every handler of the registry returns, whatever its arguments and
    whatever its collaborators do, and what it returns is a dictionary
    whose ['success'] is a boolean: a handler reports its failures in its
    result and never by an exception. *)
Theorem handlers_report_by_result (name : string) (h : Handler)
    (args : pyval) (st : State) :
  handlers env !! name = Some h ->
  exists d b st',
    h args st = (Ok (PDict d), st') /\
    dict_get d "success" = Some (PBool b).
Proof.
  intros Hh.
  destruct (handlers_return env name h args Hh st) as (r & st' & Hrun).
  destruct (handlers_yield name h args Hh st r st' Hrun) as (d & b & -> & Hs).
  exists d, b, st'. split; assumption.
Qed.

End Results.

Lemma handlers_report_by_result_witness :
  exists d b st',
    cmd_photo quiet_env (PList []) (initial_state []) = (Ok (PDict d), st') /\
    dict_get d "success" = Some (PBool b).
Proof.
  apply (handlers_report_by_result quiet_env "photo" (cmd_photo quiet_env)
           (PList []) (initial_state [])).
  reflexivity.
Defined.

(** ** One completion per record *)

(** The identifier a completion write is addressed to. *)
Definition completion_id (c : Call) : pyval :=
  match call_args c with
  | [_; cmd_id] => cmd_id
  | _ => PNone
  end.

Definition is_handler_call (n : string) : bool := mem n handler_calls.

Lemma completions_allowed (P : string -> bool) dt :
  P "commands.update.execute" = false ->
  forallb (fun c => P (callee c)) dt = true -> completions dt = [].
Proof.
  intros Hf. unfold completions, is_completion.
  induction dt as [| c dt IH]; simpl; [reflexivity |].
  intros H. apply andb_true_iff in H as [Hc Hdt].
  destruct (String.eqb (callee c) "commands.update.execute") eqn:E.
  - apply String.eqb_eq in E. congruence.
  - auto.
Qed.

Section OneCompletion.

Variable env : Env.

Definition completed_record (cmd_name : string) (b : bool) : LogRecord :=
  mkLog INFO "Command {} completed: {}" [PStr cmd_name; PBool b].

(** What [process_command] does with a record that has an identifier and a
    command name, under the registry of the program. *)
Lemma wellformed_record_run command cmd_id name st :
  dict_get command "id" = Some cmd_id ->
  dict_get command "command" = Some (PStr name) ->
  exists d b st1,
    process_command env (handlers env) command st =
      (Ok tt, add_log (completed_record (str_lower env name) b)
                (snd (update_command_result env cmd_id (PDict d) st1))) /\
    dict_get d "success" = Some (PBool b) /\
    completions (trace st1) = completions (trace st).
Proof.
  intros Hid Hname.
  rewrite (process_command_run env (handlers env) command cmd_id name st Hid Hname).
  set (st0 := add_log (processing (str_lower env name)) st).
  assert (Hrun : exists d b st1,
            match handlers env !! str_lower env name with
            | Some h => h (normalized env command)
            | None => ret (unknown_command (str_lower env name))
            end st0 = (Ok (PDict d), st1) /\
            dict_get d "success" = Some (PBool b) /\
            completions (trace st1) = completions (trace st)).
  { destruct (handlers env !! str_lower env name) as [h |] eqn:Hh.
    - destruct (handlers_return env _ h (normalized env command) Hh st0)
        as (r & st1 & Hr).
      destruct (handlers_yield env _ h _ Hh st0 r st1 Hr) as (d & b & -> & Hs).
      exists d, b, st1. split; [exact Hr |]. split; [exact Hs |].
      assert (Hsat : sat is_handler_call anything false (h (normalized env command))).
      { eapply handlers_sat; [| | exact Hh]; intros n Hn; [exact Hn | reflexivity]. }
      destruct (Hsat st0) as [Hg _]. rewrite Hr in Hg. cbn [snd] in Hg.
      destruct (grows_trace _ _ _ _ Hg) as (dt & Ht & HP).
      rewrite Ht, completions_app.
      rewrite (completions_allowed is_handler_call dt eq_refl HP).
      apply app_nil_r.
    - exists [("success", PBool false);
              ("error", PStr ("Unknown command: " ++ str_lower env name))], false, st0.
      repeat split; reflexivity. }
  destruct Hrun as (d & b & st1 & Hr & Hs & Hc).
  exists d, b, st1. split; [| split; assumption].
  unfold try_except. erewrite report_dict by exact Hr.
  rewrite Hs. reflexivity.
Qed.

(** A handler whose body is wrapped in [try: ... except Exception as e:
    return {'success': False, 'error': str(e)}]. *)
Definition guarded (body : Handler) : Handler :=
  fun args => try_except (body args) (fun e => ret (failure e)).

(** Every handler of the registry is written that way, except
    [cmd_stopfind], which has no statement that can raise. *)
Lemma registered_handlers_guard name (h : Handler) :
  handlers env !! name = Some h ->
  h = cmd_stopfind \/ exists body, h = guarded body.
Proof.
  intros Hh. unfold handlers in Hh.
  apply elem_of_list_to_map_2 in Hh. unfold handler_table in Hh.
  repeat (apply elem_of_cons in Hh; destruct Hh as [Hh | Hh];
          [injection Hh as _ ->;
           first [ left; reflexivity
                 | right; eexists; unfold guarded; reflexivity ] |]).
  inversion Hh.
Qed.


(** X18. A record with an identifier and a command name gets exactly one
    completion write from [process_command], registered command or not:
    the handler itself writes none, the write is addressed to the
    identifier of the record, its result carries a boolean ['success'],
    and the same boolean ends the log of the command. *)
Theorem wellformed_record_completed_once
    (command : dict) (cmd_id : pyval) (name : string) (st : State) :
  dict_get command "id" = Some cmd_id ->
  dict_get command "command" = Some (PStr name) ->
  exists st' d b tr,
    process_command env (handlers env) command st = (Ok tt, st') /\
    completions (trace st')
      = (completions (trace st) ++ [completion_call env tr cmd_id (PDict d)])%list /\
    dict_get d "success" = Some (PBool b) /\
    exists l, log st' = (l ++ [completed_record (str_lower env name) b])%list.
Proof.
  intros Hid Hname.
  destruct (wellformed_record_run command cmd_id name st Hid Hname)
    as (d & b & st1 & Hrun & Hs & Hc).
  eexists _, d, b, (trace st1). split; [exact Hrun |].
  cbn [trace log add_log set_log]. rewrite update_trace, completions_app, Hc.
  split; [reflexivity |]. split; [exact Hs |].
  eexists. reflexivity.
Qed.

(** What the sweep writes for one row: one completion addressed to the
    row when the row has a command name, and nothing when it has none. *)
Definition row_writes (r : Row) (cs : list Call) : Prop :=
  if named r then exists c, cs = [c] /\ completion_id c = PStr (row_id r)
  else cs = [].

Lemma row_completions r st :
  exists cs,
    completions (trace (snd (process_command env (handlers env)
                               (record_of_row r) st)))
      = (completions (trace st) ++ cs)%list /\
    row_writes r cs.
Proof.
  unfold row_writes. destruct (named r) eqn:Hn.
  - unfold named in Hn.
    destruct (row_command r) as [| | | | | name | |] eqn:Hc; try discriminate.
    destruct (wellformed_record_run (record_of_row r) (PStr (row_id r)) name st)
      as (d & b & st1 & Hrun & _ & Hcs).
    { reflexivity. }
    { cbn [record_of_row dict_get String.eqb Ascii.eqb Bool.eqb andb].
      congruence. }
    rewrite Hrun. cbn [snd trace add_log set_log].
    rewrite update_trace, completions_app, Hcs.
    eexists. split; [reflexivity |].
    eexists. split; reflexivity.
  - destruct (process_unnamed env (handlers env) r st Hn) as [msg Hrun].
    rewrite Hrun. exists []. cbn [snd trace add_log set_log].
    rewrite app_nil_r. split; reflexivity.
Qed.

Lemma rows_completions rows st :
  exists css,
    completions (trace (snd (for_each (map record_of_row rows)
                               (process_command env (handlers env)) st)))
      = (completions (trace st) ++ concat css)%list /\
    Forall2 row_writes rows css.
Proof.
  revert st. induction rows as [| r rows IH]; intros st; cbn [map for_each].
  - exists []. cbn [concat]. rewrite app_nil_r. split; [reflexivity | constructor].
  - destruct (process_command_total env (record_of_row r) st) as [st1 H1].
    destruct (row_completions r st) as (cs1 & Hc1 & Hw1).
    rewrite H1 in Hc1. cbn [snd] in Hc1.
    unfold bind. rewrite H1.
    destruct (IH st1) as (css & Hc2 & Hw2).
    exists (cs1 :: css). split; [| constructor; assumption].
    cbn [concat]. rewrite Hc2, Hc1, <- app_assoc. reflexivity.
Qed.

(** X19. The completions of one start-up sweep, row by row.  When the
    query for pending commands fails, [process_pending_commands] writes no
    completion at all.  When it answers, the completions written are, in
    the order of the rows of this device that were pending at the query,
    exactly one for each row that has a command name, addressed to that
    row, and none for a row without one: no row gets two, and rows of
    other devices and rows already completed are never written to. *)
Theorem sweep_completes_only_pending_rows (st : State) :
  let st' := snd (process_pending_commands env (handlers env) st) in
  Forall (fun r => row_device_id r = default "" (device_id st) /\
                   row_status r = "pending") (pending_rows st) /\
  match answer env (trace st) (select_call st) with
  | inl _ =>
      exists css,
        completions (trace st') = (completions (trace st) ++ concat css)%list /\
        Forall2 row_writes (pending_rows st) css
  | inr _ => completions (trace st') = completions (trace st)
  end.
Proof.
  cbv zeta. split.
  - apply Forall_forall. intros r Hr.
    unfold pending_rows in Hr. apply list_elem_of_filter in Hr as [Hp _].
    unfold is_pending_for in Hp.
    destruct (device_id st) as [dev |]; [| discriminate].
    apply andb_true_iff in Hp as [Hd Hs].
    apply String.eqb_eq in Hd. apply String.eqb_eq in Hs. cbn [default].
    split; symmetry; assumption.
  - rewrite sweep_run.
    destruct (answer env (trace st) (select_call st)) as [v | msg].
    + destruct (rows_completions (pending_rows st) (add_call (select_call st) st))
        as (css & Hc & Hw).
      fold (after_loop env st) in Hc.
      cbn [add_call set_trace trace] in Hc. rewrite completions_select in Hc.
      exists css. split; [| exact Hw].
      destruct (pending_rows st); cbn [snd add_log set_log trace]; exact Hc.
    + cbn [snd add_log set_log add_call set_trace trace].
      apply completions_select.
Qed.

End OneCompletion.


Lemma wellformed_record_completed_once_witness :
  exists st' d b tr,
    process_command quiet_env (handlers quiet_env)
      (example_record "Battery" PNone) (initial_state []) = (Ok tt, st') /\
    completions (trace st')
      = (completions (trace (initial_state []))
           ++ [completion_call quiet_env tr (PStr "c-1") (PDict d)])%list /\
    dict_get d "success" = Some (PBool b) /\
    exists l, log st' = (l ++ [completed_record "battery" b])%list.
Proof.
  apply (wellformed_record_completed_once quiet_env
           (example_record "Battery" PNone) (PStr "c-1") "Battery"
           (initial_state []) eq_refl eq_refl).
Defined.

(** ** Arguments are checked before anything is done *)

Section Validation.

Variable env : Env.

Lemma start_task_fails k d st msg :
  answer env (trace st) (start_call k) = inr msg ->
  start_task env k d st = (Raise (Exception msg), add_call (start_call k) st).
Proof.
  intros H. unfold start_task, bind, ext. fold (start_call k). rewrite H.
  reflexivity.
Qed.

(** The values [int()] does not convert: an infinity or a NaN, [None], a
    list, a dictionary, and a string that is no numeral. *)
Definition int_rejects (v : pyval) : bool :=
  match v with
  | PNonFinite _ | PNone | PList _ | PDict _ => true
  | PStr s => match int_of_str env s with Some _ => false | None => true end
  | PBool _ | PInt _ | PFloat _ => false
  end.

Lemma int_arg_rejects d key dflt v st :
  dict_get d key = Some v ->
  int_rejects v = true ->
  int_arg env (PDict d) key dflt st = (Raise (Exception (int_error env v)), st).
Proof.
  intros Hv Hrej. unfold int_arg, bind, py_get, ret. rewrite Hv.
  unfold default. cbn [from_option id]. unfold int_rejects in Hrej.
  unfold py_int, raise.
  destruct v as [| | | | | s | |]; try discriminate; try reflexivity.
  destruct (int_of_str env s); [discriminate | reflexivity].
Qed.

(** X20. The handlers that take a number convert it before they touch
    anything.  When [int(args.get(...))] raises (the arguments are no
    dictionary, or the value is one that [int()] rejects, such as an
    infinity), [cmd_alarm], [cmd_findme], [cmd_audio] and [cmd_photo]
    return the failure, whose text is that of the exception [int()]
    raised, and leave the state exactly as it was: no slot is set, no
    thread is started, no camera is opened and nothing is recorded. *)
Theorem unusable_number_changes_nothing (args : pyval) (st : State) (msg : string) :
  (fst (int_arg env args "duration" 10 st) = Raise (Exception msg) ->
   cmd_alarm env args st = (Ok (failure msg), st) /\
   cmd_audio env args st = (Ok (failure msg), st)) /\
  (fst (int_arg env args "duration" 60 st) = Raise (Exception msg) ->
   cmd_findme env args st = (Ok (failure msg), st)) /\
  (fst (int_arg env args "count" 1 st) = Raise (Exception msg) ->
   cmd_photo env args st = (Ok (failure msg), st)) /\
  (forall d key dflt v,
     args = PDict d ->
     dict_get d key = Some v ->
     int_rejects v = true ->
     fst (int_arg env args key dflt st) = Raise (Exception (int_error env v))).
Proof.
  split; [| split; [| split]];
    [| | | intros d key dflt v -> Hv Hrej;
           erewrite int_arg_rejects by eassumption; reflexivity].
  - intros H. unfold cmd_alarm, cmd_audio, try_except. rewrite !int_arg_bind.
    destruct (int_arg env args "duration" 10 st) as [[n | e] s]; simpl in H;
      [discriminate |].
    injection H as ->. split; reflexivity.
  - intros H. unfold cmd_findme, try_except. rewrite int_arg_bind.
    destruct (int_arg env args "duration" 60 st) as [[n | e] s]; simpl in H;
      [discriminate |].
    injection H as ->. reflexivity.
  - intros H. unfold cmd_photo, photo_count, try_except.
    match goal with
    | |- context [bind (bind ?m ?f) ?k st] =>
        change (bind (bind m f) k st)
          with (match bind m f st with
                | (Ok a, s) => k a s
                | (Raise e, s) => (Raise e, s)
                end)
    end.
    rewrite int_arg_bind.
    destruct (int_arg env args "count" 1 st) as [[n | e] s]; simpl in H;
      [discriminate |].
    injection H as ->. reflexivity.
Qed.

(** X21. [cmd_alarm] sets its slot before it starts the thread.  When the
    thread cannot be started, the handler reports the failure, but the
    slot already holds [True] and no thread exists that would clear it. *)
Theorem failed_start_leaves_slot_set (args : pyval) (st : State) (n : Z) (msg : string) :
  fst (int_arg env args "duration" 10 st) = Ok n ->
  answer env (trace st) (start_call Alarm) = inr msg ->
  let st' := snd (cmd_alarm env args st) in
  fst (cmd_alarm env args st) = Ok (failure msg) /\
  running_commands st' !! "alarm" = Some true /\
  threads st' = threads st.
Proof.
  intros Hn Hans. cbv zeta. unfold cmd_alarm, try_except. rewrite int_arg_bind.
  destruct (int_arg env args "duration" 10 st) as [[n' | e] s]; simpl in Hn;
    [| discriminate].
  erewrite bind_ok by reflexivity.
  erewrite bind_raise by (apply start_task_fails; exact Hans).
  cbn [fst snd ret running_commands add_call set_trace set_running_commands
         threads].
  split; [reflexivity |]. split; [apply lookup_insert_eq | reflexivity].
Qed.

(** X22. A sweep whose query and completion writes succeeded drains the
    backlog: afterwards no row of this device that has a command name is
    pending. *)
Theorem sweep_drains_backlog (st : State) (v : pyval) (r : Row) :
  update_succeeds env ->
  answer env (trace st) (select_call st) = inl v ->
  r ∈ pending_rows (snd (process_pending_commands env (handlers env) st)) ->
  named r = false.
Proof.
  intros Hw Hsel Hr.
  pose proof (pending_after_sweep env Hw st v Hsel) as H.
  rewrite Forall_forall in H. apply H. exact Hr.
Qed.

End Validation.

Lemma unusable_number_changes_nothing_witness :
  cmd_alarm quiet_env (PDict [("duration", PNonFinite PosInf)]) alarm_started
    = (Ok (failure (int_error quiet_env (PNonFinite PosInf))), alarm_started).
Proof.
  apply (proj1 (unusable_number_changes_nothing quiet_env
                  (PDict [("duration", PNonFinite PosInf)]) alarm_started
                  (int_error quiet_env (PNonFinite PosInf)))).
  reflexivity.
Defined.

(** A host that cannot start another thread. *)
Definition no_threads (tr : list Call) (c : Call) : pyval + string :=
  if String.eqb (callee c) "threading.Thread.start"
  then inr "can't start new thread" else inl PNone.

Lemma failed_start_leaves_slot_set_witness :
  running_commands (snd (cmd_alarm (example_env no_threads true) (PDict [])
                           (initial_state []))) !! "alarm" = Some true.
Proof.
  apply (failed_start_leaves_slot_set (example_env no_threads true) (PDict [])
           (initial_state []) 10 "can't start new thread" eq_refl eq_refl).
Defined.

Lemma sweep_drains_backlog_witness :
  Forall (fun r => named r = false)
    (pending_rows (snd (process_pending_commands quiet_env (handlers quiet_env)
                          (initial_state one_pending)))).
Proof.
  apply Forall_forall. intros r Hr.
  apply (sweep_drains_backlog quiet_env (initial_state one_pending) PNone r
           (fun tr args => ex_intro _ PNone eq_refl) eq_refl Hr).
Defined.
